(** * KORE terms, their binary framing and the streaming reader of the
      Python binding (bindings/python/ast.cpp)

    The binding file is the only translation unit at hand.  What it defines
    itself (the streaming reader [read_pattern_from_file], the [serialize] and
    [deserialize] lambdas, the enumeration of sort categories) is embedded
    from its text.  What it only calls (the kllvm serializer, the kllvm
    deserializer, the AST classes) is either taken as a parameter or modelled
    from the specification, and every such definition says so. *)

From Stdlib Require Import ZArith NArith Lia String Ascii List Bool.
From Stdlib.Strings Require Import Byte.
From stdpp Require Import base option list gmap strings.

Set Warnings "-register-all".
Local Open Scope string_scope.
Local Open Scope list_scope.
Local Open Scope N_scope.

(** Equality of bytes is decided by [Byte.eqb]. *)
#[global]
Instance byte_eq_decision : EqDecision byte.
Proof.
  intros x y. destruct (Byte.eqb x y) eqn:E.
  - left. apply Byte.byte_dec_bl. exact E.
  - right. apply Byte.eqb_false. exact E.
Defined.

(* ===================================================================== *)
(** * Part I.  The data model *)
(* ===================================================================== *)

(** [py::enum_<SortCategory>], lines 202-214.  [Set] and [Variable] are
    reserved words here, hence the module and the two underscores. *)
Module SortCategory.
Inductive t : Type :=
| Uncomputed | Map | RangeMap | List | Set_ | Int | Float
| StringBuffer | Bool | Symbol | Variable_ | MInt.
End SortCategory.

(** [ValueType{cat, bits}], lines 216-222; [bits] is a [uint64_t]. *)
Record ValueType : Type := { cat : SortCategory.t; bits : N }.

(** Sorts: [KORESortVariable::Create(name)] and
    [KORECompositeSort::Create(name, cat)] followed by [add_argument],
    lines 241-253. *)
Inductive KORESort : Type :=
| KORESortVariable (name : string)
| KORECompositeSort (name : string) (category : ValueType) (arguments : list KORESort).

(** Symbols, lines 257-272: a name, the argument sorts added by
    [add_argument], the formal arguments added by [add_formal_argument] and
    the sort set, if ever, by [add_sort]. *)
Record KORESymbol : Type := {
  symbol_name : string;
  symbol_arguments : list KORESort;
  symbol_formal_arguments : list KORESort;
  symbol_sort : option KORESort
}.

(** Patterns, lines 283-333. *)
Inductive KOREPattern : Type :=
| KORECompositePattern (constructor : KORESymbol) (arguments : list KOREPattern)
| KOREVariablePattern (name : string) (sort : KORESort)
| KOREStringPattern (contents : string).

(* ===================================================================== *)
(** * Part II.  Failures *)
(* ===================================================================== *)

(** The error taxonomy of section 7 of the specification. *)
Inductive error_kind : Type :=
| FormatError | UnsupportedVersionError | MissingSizeError
| ShortReadError | ArityError | SyntaxError | TypeError.

(** What is thrown.  The binding throws [py::type_error] (line 75) and
    [std::invalid_argument] (lines 86, 96, 106); [kore_error] stands for a
    failure raised inside a kllvm function the binding calls. *)
Inductive exception : Type :=
| type_error (what : string)
| invalid_argument (what : string)
| kore_error (kind : error_kind).

(** A value, or the exception thrown in its place. *)
Inductive result (A : Type) : Type :=
| Ok (a : A)
| Err (e : exception).
Arguments Ok {A} a.
Arguments Err {A} e.

(** The four messages of [read_pattern_from_file], as written in the source. *)
Definition not_file_like_message : string :=
  "Argument to read_from is not a file-like object".
Definition bad_header_message : string :=
  "Data does not begin with the binary KORE header bytes".
Definition old_version_message : string :=
  "Pattern read from a file-like object must use version 1.2.0 or newer".
Definition missing_size_message : string :=
  "Pattern size must be set explicitly when reading from a file-like object".

(** How the exceptions of the binding read in the taxonomy of the
    specification: the three [std::invalid_argument] are told apart by
    their throw site, that is by their message. *)
Definition spec_kind (e : exception) : option error_kind :=
  match e with
  | type_error _ => Some TypeError
  | invalid_argument what =>
      if String.eqb what bad_header_message then Some FormatError
      else if String.eqb what old_version_message then Some UnsupportedVersionError
      else if String.eqb what missing_size_message then Some MissingSizeError
      else None
  | kore_error kind => Some kind
  end.

(* ===================================================================== *)
(** * Part III.  What the binding takes from kllvm *)
(* ===================================================================== *)

(** Modelled from the spec: [binary_version] and its order, declared in a
    kllvm header that is not at hand.  Section 4.3 speaks of a
    "3-component version triple" compared with 1.2.0; the order is the
    lexicographic one on (major, minor, patch). *)
Record binary_version : Type := Version { v_major : N; v_minor : N; v_patch : N }.

(** Modelled from the spec: [operator<] on [binary_version] (line 95), the
    lexicographic order of the three components. *)
Definition version_ltb (a b : binary_version) : bool :=
  (v_major a <? v_major b)
  || ((v_major a =? v_major b)
      && ((v_minor a <? v_minor b)
          || ((v_minor a =? v_minor b) && (v_patch a <? v_patch b)))).

(** [serializer::magic_header] (line 84): a constant of five bytes whose
    value neither the binding nor the specification gives. *)
Class MagicHeader : Type := {
  magic_header : list byte;
  magic_header_size : length magic_header = 5%nat
}.

(** The three functions of [kllvm::detail] the reader calls (lines 93, 102
    and 112).  Each receives the bytes one [read] returned. *)
Class Deserializer : Type := {
  read_version : list byte -> result binary_version;
  read_pattern_size_unchecked : list byte -> result N;
  read : list byte -> binary_version -> result KOREPattern
}.

(** A byte source: the [read] attribute of a file-like object (line 78),
    called with a length, returning bytes and leaving the object in a new
    state.  The call is taken to return a [bytes] object; a [read] that
    raises, or returns something else, is outside this model: what is
    stated of the reader is stated of runs in which every read made
    returned bytes. *)
Class ByteSource (S : Type) : Type := {
  src_read : N -> S -> list byte * S
}.

(** The argument of [read_from] is any Python object; only a file-like one
    has a [read] attribute. *)
Inductive py_object (S : Type) : Type :=
| py_file_like (src : S)
| py_bytes (b : list byte)
| py_str (s : string)
| py_int (z : Z)
| py_none.
Arguments py_file_like {S} src.
Arguments py_bytes {S} b.
Arguments py_str {S} s.
Arguments py_int {S} z.
Arguments py_none {S}.

(** [py::hasattr(file_like, "read")], line 74. *)
Definition hasattr_read {S : Type} (o : py_object S) : bool :=
  match o with
  | py_file_like _ => true
  | _ => false
  end.

(** [std::equal(first1, last1, first2)]: the first range is walked to its
    end and compared element by element with what starts at [first2]; the
    length of the second range is not looked at.  Walking past the end of
    the second range is undefined in C++; it is given as a mismatch here
    and arises only when a source returns more bytes than it was asked
    for. *)
Fixpoint std_equal (xs ref : list byte) : bool :=
  match xs, ref with
  | [], _ => true
  | x :: xs', r :: ref' => Byte.eqb x r && std_equal xs' ref'
  | _ :: _, [] => false
  end.

(* ===================================================================== *)
(** * Part IV.  [read_pattern_from_file], lines 73-113 *)
(* ===================================================================== *)

(** Computations that call [read] on a source and may throw. *)
Definition Reader (S A : Type) : Type := S -> result A * S.

(** Return, sequencing, [throw] and the result of a kllvm call. *)
Definition reader_ret {S A : Type} (a : A) : Reader S A :=
  fun s => (Ok a, s).

Definition reader_bind {S A B : Type} (m : Reader S A) (k : A -> Reader S B) : Reader S B :=
  fun s =>
    match m s with
    | (Ok a, s') => k a s'
    | (Err e, s') => (Err e, s')
    end.

Definition throw {S A : Type} (e : exception) : Reader S A :=
  fun s => (Err e, s).

Definition lift {S A : Type} (r : result A) : Reader S A :=
  fun s => (r, s).

Notation "'do' x <-- m ; k" := (reader_bind m (fun x => k))
  (at level 10, x name, m at level 100, k at level 200).

Section StreamingReader.
Context {S : Type} {source : ByteSource S} {magic : MagicHeader} {kllvm : Deserializer}.

(** The lambda of lines 79-81: whatever the call returns is converted to a
    string and handed back; its length is not compared with [len].  An
    exception raised by the call, or by the conversion of what is not a
    [bytes] object, would leave the lambda and the reader as it is; no
    [ByteSource] raises, so that path is not here. *)
Definition read_len (len : N) : Reader S (list byte) :=
  fun s => let '(bytes, s') := src_read len s in (Ok bytes, s').

(** Lines 100-112: the size field and the body. *)
Definition read_sized_pattern (version : binary_version) : Reader S KOREPattern :=
  do size_bytes <-- read_len 8 ;
  do size <-- lift (read_pattern_size_unchecked size_bytes) ;
  if size =? 0 then throw (invalid_argument missing_size_message)
  else
    do pattern_bytes <-- read_len size ;
    lift (read pattern_bytes version).

(** Lines 83-98, then the above. *)
Definition read_framed_pattern : Reader S KOREPattern :=
  do header <-- read_len 5 ;
  if negb (std_equal header magic_header)
  then throw (invalid_argument bad_header_message)
  else
    do version_bytes <-- read_len 6 ;
    do version <-- lift (read_version version_bytes) ;
    if version_ltb version (Version 1 2 0)
    then throw (invalid_argument old_version_message)
    else read_sized_pattern version.

(** Lines 73-76, then the above on the object's [read].  The last case of
    the [match] is never taken: only a file-like object passes the test. *)
Definition read_pattern_from_file (file_like : py_object S)
  : result KOREPattern * py_object S :=
  if negb (hasattr_read file_like)
  then (Err (type_error not_file_like_message), file_like)
  else
    match file_like with
    | py_file_like src =>
        let '(r, src') := read_framed_pattern src in (r, py_file_like src')
    | _ => (Err (type_error not_file_like_message), file_like)
    end.

End StreamingReader.

(** An in-memory source, as [io.BytesIO]: [read(n)] returns the next [n]
    bytes, or all that is left when fewer remain, and moves the cursor
    past them.  This is [io.BytesIO.read] for [n] below 2^63; from there
    on [n] does not fit the signed size the call takes and it raises.
    The lengths asked of this source below are 5, 6, 8, the length of a
    body the stream holds, or a size below 2^63. *)
Record cursor : Type := { cur_data : list byte; cur_pos : nat }.

(** [io.BytesIO.read]. *)
Definition cursor_read (n : N) (c : cursor) : list byte * cursor :=
  let chunk := take (N.to_nat n) (drop (cur_pos c) (cur_data c)) in
  (chunk, {| cur_data := cur_data c; cur_pos := cur_pos c + length chunk |}).

#[global]
Instance cursor_source : ByteSource cursor := {| src_read := cursor_read |}.

(** A source that keeps a journal of the calls made on it: for each
    [read(n)], the length asked for and the number of bytes returned. *)
Record journaled (S : Type) : Type := {
  inner : S;
  journal : list (N * nat)
}.
Arguments inner {S} j.
Arguments journal {S} j.

Definition journaled_read {S : Type} {source : ByteSource S} (n : N) (j : journaled S)
  : list byte * journaled S :=
  let '(bytes, s') := src_read n (inner j) in
  (bytes, {| inner := s'; journal := journal j ++ [(n, length bytes)] |}).

#[global]
Instance journaled_source {S : Type} {source : ByteSource S} : ByteSource (journaled S) :=
  {| src_read := journaled_read |}.

(** A call of the journal that returned fewer bytes than it asked for. *)
Definition short_read (call : N * nat) : bool :=
  N.of_nat (snd call) <? fst call.

(* ===================================================================== *)
(** * Part V.  The binary codec *)
(* ===================================================================== *)

(** ** Numbers and bytes *)

Definition byte_of_N (n : N) : byte :=
  match Byte.of_N n with
  | Some b => b
  | None => x00
  end.

(** Modelled from the spec: the fixed-width fields of the framing (the
    version components and the size field; [detail::to_bytes] and
    [detail::from_bytes] are not at hand).  Section 4.1 leaves the byte
    order to be picked and documented: least significant byte first.  A
    number that does not fit the width wraps around. *)
Fixpoint to_bytes (width : nat) (n : N) : list byte :=
  match width with
  | O => []
  | S w => byte_of_N (n mod 256) :: to_bytes w (n / 256)
  end.

(** Modelled from the spec: [detail::from_bytes], the inverse of the above. *)
Fixpoint from_bytes (bs : list byte) : N :=
  match bs with
  | [] => 0
  | b :: bs' => Byte.to_N b + 256 * from_bytes bs'
  end.

(** Modelled from the spec: lengths and counts inside the body
    ([serializer::emit_length] is not at hand; section 4.1 asks for a
    compact encoding).  Seven bits per byte, least significant group
    first, the high bit set on every byte but the last. *)
Fixpoint encode_length_groups (groups : nat) (n : N) : list byte :=
  match groups with
  | O => []
  | S g =>
      if n <? 128 then [byte_of_N n]
      else byte_of_N (128 + n mod 128) :: encode_length_groups g (n / 128)
  end.

(** As many groups as the number has bits are always enough. *)
Definition encode_length (n : N) : list byte :=
  encode_length_groups (S (N.to_nat (N.log2 n))) n.

(** Modelled from the spec: the inverse of [encode_length] ([detail::read_length]
    is not at hand); the number read and how many bytes it took. *)
Fixpoint decode_length (bs : list byte) : option (N * nat) :=
  match bs with
  | [] => None
  | b :: bs' =>
      let v := Byte.to_N b in
      if v <? 128 then Some (v, 1%nat)
      else
        match decode_length bs' with
        | Some (high, used) => Some (v - 128 + 128 * high, S used)
        | None => None
        end
  end.

(** ** What the specification leaves to the implementation *)

(** Modelled from the spec: the version the serializer writes
    ([serializer::version]), the versions the whole-buffer deserializer
    accepts and what stripping a raw term does to a decoded pattern
    ([strip_raw_term] of the kllvm deserializer) are not at hand and the
    specification fixes none of them.  It asks that the size field
    follows the version from 1.2.0 on (section 4.3), that a version
    component takes two bytes (section 6, the 6-byte version record) and
    that what is written can be read back (section 4.1). *)
Class Format : Type := {
  format_version : binary_version;
  format_version_fits :
    v_major format_version < 65536 /\
    v_minor format_version < 65536 /\
    v_patch format_version < 65536;
  format_version_sized : version_ltb format_version (Version 1 2 0) = false;
  supported_version : binary_version -> bool;
  supported_version_current : supported_version format_version = true;
  raw_term_stripped : KOREPattern -> KOREPattern
}.

(** Modelled from the spec: the tag bytes ("tag byte per node kind", section
    4.1; the assignment is an implementation choice that must be stable). *)
Definition direct_string_prefix : byte := x01.
Definition backref_string_prefix : byte := x02.
Definition composite_pattern_tag : byte := x04.
Definition string_pattern_tag : byte := x05.
Definition composite_sort_tag : byte := x06.
Definition sort_variable_tag : byte := x07.
Definition symbol_tag : byte := x08.
Definition variable_pattern_tag : byte := x09.

(** Modelled from the spec: the byte that stands for a sort category in the
    body, its rank in the enumeration of lines 202-214. *)
Definition category_code (c : SortCategory.t) : N :=
  match c with
  | SortCategory.Uncomputed => 0
  | SortCategory.Map => 1
  | SortCategory.RangeMap => 2
  | SortCategory.List => 3
  | SortCategory.Set_ => 4
  | SortCategory.Int => 5
  | SortCategory.Float => 6
  | SortCategory.StringBuffer => 7
  | SortCategory.Bool => 8
  | SortCategory.Symbol => 9
  | SortCategory.Variable_ => 10
  | SortCategory.MInt => 11
  end.

Definition category_of_code (n : N) : option SortCategory.t :=
  match n with
  | 0 => Some SortCategory.Uncomputed
  | 1 => Some SortCategory.Map
  | 2 => Some SortCategory.RangeMap
  | 3 => Some SortCategory.List
  | 4 => Some SortCategory.Set_
  | 5 => Some SortCategory.Int
  | 6 => Some SortCategory.Float
  | 7 => Some SortCategory.StringBuffer
  | 8 => Some SortCategory.Bool
  | 9 => Some SortCategory.Symbol
  | 10 => Some SortCategory.Variable_
  | 11 => Some SortCategory.MInt
  | _ => None
  end.

(** The length of the framing before the body: magic, version, size. *)
Definition header_prefix_length : nat := 11.
Definition body_start : nat := 19.

(** ** The serializer *)

(** Modelled from the spec: the kllvm [serializer] (the binding only
    constructs one and calls [correct_emitted_size] and [byte_string] on
    it).  It owns the output written so far and the table of the names
    already written ("symbol/name table references", section 4.1), each
    with the offset at which it was written out in full. *)
Record serializer : Type := {
  buffer : list byte;
  intern_table : gmap string nat
}.

(** Modelled from the spec: [serializer::emit] and [serializer::emit_length];
    the output only ever grows at its end. *)
Definition emit_bytes (bs : list byte) (out : serializer) : serializer :=
  {| buffer := buffer out ++ bs; intern_table := intern_table out |}.

Definition emit (b : byte) (out : serializer) : serializer :=
  emit_bytes [b] out.

Definition emit_length (n : N) (out : serializer) : serializer :=
  emit_bytes (encode_length n) out.

(** A name seen for the first time is written in full and entered in the
    table; a name seen before is written as the distance back to where it
    stands in full. *)
Definition emit_string (s : string) (out : serializer) : serializer :=
  match intern_table out !! s with
  | Some previous =>
      emit_length (N.of_nat (length (buffer out) - previous))
        (emit backref_string_prefix out)
  | None =>
      let data := list_byte_of_string s in
      emit_bytes data
        (emit_length (N.of_nat (length data))
           (emit direct_string_prefix
              {| buffer := buffer out;
                 intern_table := <[s := length (buffer out)]> (intern_table out) |}))
  end.

(** Modelled from the spec: [KORESort::serialize_to]; tag, name, value
    type, child count, children. *)
Fixpoint serialize_sort (s : KORESort) (out : serializer) : serializer :=
  match s with
  | KORESortVariable name => emit_string name (emit sort_variable_tag out)
  | KORECompositeSort name category arguments =>
      let out := emit composite_sort_tag out in
      let out := emit_string name out in
      let out := emit (byte_of_N (category_code (cat category))) out in
      let out := emit_length (bits category) out in
      let out := emit_length (N.of_nat (length arguments)) out in
      fold_left (fun o a => serialize_sort a o) arguments out
  end.

(** A sequence of sorts: its length, then its members in order. *)
Definition serialize_sorts (sorts : list KORESort) (out : serializer) : serializer :=
  fold_left (fun o a => serialize_sort a o) sorts
    (emit_length (N.of_nat (length sorts)) out).

(** Modelled from the spec: [KORESymbol::serialize_to]. *)
Definition serialize_symbol (sym : KORESymbol) (out : serializer) : serializer :=
  let out := emit symbol_tag out in
  let out := emit_string (symbol_name sym) out in
  let out := serialize_sorts (symbol_arguments sym) out in
  let out := serialize_sorts (symbol_formal_arguments sym) out in
  match symbol_sort sym with
  | None => emit x00 out
  | Some s => serialize_sort s (emit x01 out)
  end.

(** Modelled from the spec: [KOREPattern::serialize_to] (called at line
    293): "tag byte per node kind + symbol/name table references + child
    count + recursive children". *)
Fixpoint serialize_to (pattern : KOREPattern) (out : serializer) : serializer :=
  match pattern with
  | KORECompositePattern constructor arguments =>
      let out := emit composite_pattern_tag out in
      let out := serialize_symbol constructor out in
      let out := emit_length (N.of_nat (length arguments)) out in
      fold_left (fun o a => serialize_to a o) arguments out
  | KOREVariablePattern name sort =>
      serialize_sort sort (emit_string name (emit variable_pattern_tag out))
  | KOREStringPattern contents =>
      emit_string contents (emit string_pattern_tag out)
  end.

(** Modelled from the spec: the 6-byte version record of section 6, two
    bytes per component. *)
Definition version_bytes (v : binary_version) : list byte :=
  to_bytes 2 (v_major v) ++ to_bytes 2 (v_minor v) ++ to_bytes 2 (v_patch v).

Section Codec.
Context {magic : MagicHeader} {format : Format}.

(** Modelled from the spec: [serializer{}]; the magic header, the version
    and a size field reserved as zero (section 4.1). *)
Definition new_serializer : serializer :=
  {| buffer := magic_header ++ version_bytes format_version ++ to_bytes 8 0;
     intern_table := ∅ |}.

(** Modelled from the spec: [serializer::correct_emitted_size]; the
    reserved field is overwritten with the length of what follows it. *)
Definition correct_emitted_size (out : serializer) : serializer :=
  {| buffer :=
       take header_prefix_length (buffer out)
       ++ to_bytes 8 (N.of_nat (length (buffer out) - body_start))
       ++ drop body_start (buffer out);
     intern_table := intern_table out |}.

(** Modelled from the spec: [serializer::byte_string]. *)
Definition byte_string (out : serializer) : list byte := buffer out.

(** The lambda bound to [Pattern.serialize], lines 291-300. *)
Definition serialize (pattern : KOREPattern) (emit_size : bool) : list byte :=
  let out := new_serializer in
  let out := serialize_to pattern out in
  let out := if emit_size then correct_emitted_size out else out in
  byte_string out.

End Codec.

(** ** The deserializer *)

(** A decoder reads a buffer from an offset and returns what it read with
    the offset after it.  Offsets, not suffixes: a reference to a name
    points back into what was already read. *)
Definition Dec (A : Type) : Type := list byte -> nat -> result (A * nat).

(** Malformed, truncated or unrecognized bytes (section 7). *)
Definition format_error {A : Type} : result A := Err (kore_error FormatError).

Definition dec_ret {A : Type} (a : A) : Dec A :=
  fun _ pos => Ok (a, pos).

Definition dec_bind {A B : Type} (d : Dec A) (k : A -> Dec B) : Dec B :=
  fun buf pos =>
    match d buf pos with
    | Ok (a, pos') => k a buf pos'
    | Err e => Err e
    end.

Definition dec_fail {A : Type} (kind : error_kind) : Dec A :=
  fun _ _ => Err (kore_error kind).

Notation "'dec' x <-- d ; k" := (dec_bind d (fun x => k))
  (at level 10, x name, d at level 100, k at level 200).

(** Modelled from the spec: the primitive reads of the deserializer; each
    fails with [FormatError] when the buffer ends too early. *)
Definition read_byte : Dec byte :=
  fun buf pos =>
    match buf !! pos with
    | Some b => Ok (b, S pos)
    | None => format_error
    end.

Definition expect_byte (b : byte) : Dec unit :=
  dec x <-- read_byte ;
  if Byte.eqb x b then dec_ret tt else dec_fail FormatError.

Definition read_length : Dec N :=
  fun buf pos =>
    match decode_length (drop pos buf) with
    | Some (n, used) => Ok (n, (pos + used)%nat)
    | None => format_error
    end.

Definition read_chars (len : N) : Dec string :=
  fun buf pos =>
    if N.of_nat (length buf) <? N.of_nat pos + len then format_error
    else
      let n := N.to_nat len in
      Ok (string_of_list_byte (take n (drop pos buf)), (pos + n)%nat).

Definition read_direct_string : Dec string :=
  dec _ <-- expect_byte direct_string_prefix ;
  dec len <-- read_length ;
  read_chars len.

(** Modelled from the spec: a name is either written in full or is a
    reference to an earlier place of the buffer where it is. *)
Definition read_string : Dec string :=
  fun buf pos =>
    match buf !! pos with
    | Some prefix =>
        if Byte.eqb prefix direct_string_prefix then read_direct_string buf pos
        else if Byte.eqb prefix backref_string_prefix then
          match read_length buf (S pos) with
          | Ok (distance, pos') =>
              if N.of_nat pos <? distance then format_error
              else
                match read_direct_string buf (pos - N.to_nat distance)%nat with
                | Ok (s, _) => Ok (s, pos')
                | Err e => Err e
                end
          | Err e => Err e
          end
        else format_error
    | None => format_error
    end.

(** A sequence: its length, then that many members. *)
Fixpoint read_n {A : Type} (d : Dec A) (n : nat) : Dec (list A) :=
  match n with
  | O => dec_ret []
  | S n' =>
      dec x <-- d ;
      dec xs <-- read_n d n' ;
      dec_ret (x :: xs)
  end.

Definition read_list {A : Type} (d : Dec A) : Dec (list A) :=
  dec n <-- read_length ;
  read_n d (N.to_nat n).

Definition read_category : Dec SortCategory.t :=
  dec b <-- read_byte ;
  match category_of_code (Byte.to_N b) with
  | Some c => dec_ret c
  | None => dec_fail FormatError
  end.

(** Modelled from the spec: the sort decoder; [fuel] bounds the nesting. *)
Fixpoint read_sort (fuel : nat) : Dec KORESort :=
  match fuel with
  | O => dec_fail FormatError
  | S fuel' =>
      dec tag <-- read_byte ;
      if Byte.eqb tag sort_variable_tag then
        dec name <-- read_string ;
        dec_ret (KORESortVariable name)
      else if Byte.eqb tag composite_sort_tag then
        dec name <-- read_string ;
        dec c <-- read_category ;
        dec b <-- read_length ;
        dec arguments <-- read_list (read_sort fuel') ;
        dec_ret (KORECompositeSort name {| cat := c; bits := b |} arguments)
      else dec_fail FormatError
  end.

(** Modelled from the spec: the symbol decoder, the inverse of
    [serialize_symbol]. *)
Definition read_optional_sort (fuel : nat) : Dec (option KORESort) :=
  dec flag <-- read_byte ;
  if Byte.eqb flag x00 then dec_ret None
  else if Byte.eqb flag x01 then
    dec s <-- read_sort fuel ;
    dec_ret (Some s)
  else dec_fail FormatError.

Definition read_symbol (fuel : nat) : Dec KORESymbol :=
  dec _ <-- expect_byte symbol_tag ;
  dec name <-- read_string ;
  dec arguments <-- read_list (read_sort fuel) ;
  dec formals <-- read_list (read_sort fuel) ;
  dec sort <-- read_optional_sort fuel ;
  dec_ret {| symbol_name := name;
             symbol_arguments := arguments;
             symbol_formal_arguments := formals;
             symbol_sort := sort |}.

(** The declared arity of a symbol: the number of its argument sorts. *)
Definition arity (sym : KORESymbol) : nat := length (symbol_arguments sym).

(** Modelled from the spec: the pattern decoder.  A composite pattern whose
    child count is not the arity of its symbol is an [ArityError] (sections
    7 and 8); an unknown tag or a truncated buffer is a [FormatError]. *)
Fixpoint read_pattern (fuel : nat) : Dec KOREPattern :=
  match fuel with
  | O => dec_fail FormatError
  | S fuel' =>
      dec tag <-- read_byte ;
      if Byte.eqb tag composite_pattern_tag then
        dec constructor <-- read_symbol fuel' ;
        dec arguments <-- read_list (read_pattern fuel') ;
        if (length arguments =? arity constructor)%nat
        then dec_ret (KORECompositePattern constructor arguments)
        else dec_fail ArityError
      else if Byte.eqb tag variable_pattern_tag then
        dec name <-- read_string ;
        dec sort <-- read_sort fuel' ;
        dec_ret (KOREVariablePattern name sort)
      else if Byte.eqb tag string_pattern_tag then
        dec contents <-- read_string ;
        dec_ret (KOREStringPattern contents)
      else dec_fail FormatError
  end.

(** Modelled from the spec: [detail::read_version]; three components of two
    bytes each, and "truncated version" when fewer than six bytes are
    there (section 4.3, step 2). *)
Definition decode_version (bytes : list byte) : result binary_version :=
  if (length bytes <? 6)%nat then format_error
  else
    Ok (Version (from_bytes (take 2 bytes))
                (from_bytes (take 2 (drop 2 bytes)))
                (from_bytes (take 2 (drop 4 bytes)))).

(** Modelled from the spec: [detail::read_pattern_size_unchecked]; eight
    bytes read as an unsigned number. *)
Definition decode_pattern_size (bytes : list byte) : result N :=
  if (length bytes <? 8)%nat then format_error
  else Ok (from_bytes (take 8 bytes)).

(** Modelled from the spec: [detail::read]; the bytes are one pattern body
    (section 4.3, step 5), nothing before it and nothing after it.  The
    fuel is more than the nesting any buffer of this length can hold. *)
Definition decode_body (bytes : list byte) (version : binary_version)
  : result KOREPattern :=
  match read_pattern (S (length bytes)) bytes 0%nat with
  | Ok (p, pos) => if (pos =? length bytes)%nat then Ok p else format_error
  | Err e => Err e
  end.

(** The three kllvm functions of the reader, as modelled above. *)
Definition modelled_deserializer : Deserializer := {|
  read_version := decode_version;
  read_pattern_size_unchecked := decode_pattern_size;
  read := decode_body
|}.

Section WholeBuffer.
Context {magic : MagicHeader} {format : Format}.

(** Modelled from the spec: [deserialize_pattern] (called at line 306;
    sections 4.2 and 6).  The magic header must match and the version be
    supported.  From 1.2.0 on the size field follows; when it is set the
    body is that many bytes, otherwise the rest of the buffer. *)
Definition deserialize_pattern (bytes : list byte) (should_strip : bool)
  : result KOREPattern :=
  if negb (bool_decide (take 5 bytes = magic_header)) then format_error
  else
    match decode_version (take 6 (drop 5 bytes)) with
    | Err e => Err e
    | Ok version =>
        if negb (supported_version version) then format_error
        else
          let framed :=
            if version_ltb version (Version 1 2 0)
            then Ok (drop header_prefix_length bytes)
            else
              match decode_pattern_size (take 8 (drop header_prefix_length bytes)) with
              | Err e => Err e
              | Ok size =>
                  let rest := drop body_start bytes in
                  if size =? 0 then Ok rest
                  else if N.of_nat (length rest) <? size then format_error
                  else Ok (take (N.to_nat size) rest)
              end in
          match framed with
          | Err e => Err e
          | Ok body =>
              match decode_body body version with
              | Err e => Err e
              | Ok p => Ok (if should_strip then raw_term_stripped p else p)
              end
          end
    end.

(** The lambda bound to [Pattern.deserialize], lines 304-308. *)
Definition deserialize (bytes : list byte) (strip_raw_term : bool)
  : result KOREPattern :=
  deserialize_pattern bytes strip_raw_term.

End WholeBuffer.

(* ===================================================================== *)
(** * Part VI.  Pattern objects, as Python holds them *)
(* ===================================================================== *)

(** Every pattern class is bound with [std::shared_ptr] as its holder
    (lines 284, 313, 325, 330): what Python holds is a handle, two handles
    may name one object, and [add_argument] (line 322) changes the object
    a handle names.  A store maps addresses to objects; the arguments of a
    composite object are addresses. *)
Definition address : Type := nat.

(** What a handle names. *)
Inductive pattern_object : Type :=
| composite_object (constructor : KORESymbol) (arguments : list address)
| variable_object (name : string) (sort : KORESort)
| string_object (contents : string).

(** [std::make_shared]: a new object at an address no object has. *)
Definition allocate (o : pattern_object) (h : gmap address pattern_object)
  : address * gmap address pattern_object :=
  let a := fresh (dom h) in (a, <[a := o]> h).

(** The constructors of lines 315-318, 327 and 332. *)
Definition bare_symbol (name : string) : KORESymbol :=
  {| symbol_name := name; symbol_arguments := [];
     symbol_formal_arguments := []; symbol_sort := None |}.

Definition create_composite (constructor : KORESymbol) (h : gmap address pattern_object)
  : address * gmap address pattern_object :=
  allocate (composite_object constructor []) h.

Definition create_composite_named (name : string) (h : gmap address pattern_object)
  : address * gmap address pattern_object :=
  create_composite (bare_symbol name) h.

Definition create_variable (name : string) (sort : KORESort) (h : gmap address pattern_object)
  : address * gmap address pattern_object :=
  allocate (variable_object name sort) h.

Definition create_string (contents : string) (h : gmap address pattern_object)
  : address * gmap address pattern_object :=
  allocate (string_object contents) h.

(** Modelled from the spec: [KORECompositePattern::addArgument] (bound at
    line 322); it appends to the ordered sequence of arguments (section
    4.4). *)
Definition add_argument (self arg : address) (h : gmap address pattern_object)
  : option (gmap address pattern_object) :=
  match h !! self with
  | Some (composite_object constructor arguments) =>
      Some (<[self := composite_object constructor (arguments ++ [arg])]> h)
  | _ => None
  end.

(** The tree a handle stands for: its deep snapshot.  [fuel] bounds the
    depth; a store may hold a cycle, which has no snapshot. *)
Fixpoint snapshot (fuel : nat) (h : gmap address pattern_object) (a : address)
  : option KOREPattern :=
  match fuel with
  | O => None
  | S fuel' =>
      match h !! a with
      | Some (composite_object constructor arguments) =>
          match mapM (snapshot fuel' h) arguments with
          | Some trees => Some (KORECompositePattern constructor trees)
          | None => None
          end
      | Some (variable_object name sort) => Some (KOREVariablePattern name sort)
      | Some (string_object contents) => Some (KOREStringPattern contents)
      | None => None
      end
  end.

(** Modelled from the spec: [serialize_to] on objects; the virtual call of
    line 293 walks the object, its symbol and its arguments in order and
    writes what [serialize_to] writes for the tree. *)
Fixpoint serialize_object_to (fuel : nat) (h : gmap address pattern_object)
    (a : address) (out : serializer) : option serializer :=
  match fuel with
  | O => None
  | S fuel' =>
      match h !! a with
      | Some (composite_object constructor arguments) =>
          let out := emit composite_pattern_tag out in
          let out := serialize_symbol constructor out in
          let out := emit_length (N.of_nat (length arguments)) out in
          fold_left
            (fun acc arg =>
               match acc with
               | Some o => serialize_object_to fuel' h arg o
               | None => None
               end)
            arguments (Some out)
      | Some (variable_object name sort) =>
          Some (serialize_sort sort (emit_string name (emit variable_pattern_tag out)))
      | Some (string_object contents) =>
          Some (emit_string contents (emit string_pattern_tag out))
      | None => None
      end
  end.

Section SerializeObject.
Context {magic : MagicHeader} {format : Format}.

(** The lambda bound to [Pattern.serialize], lines 291-300, on the object
    a handle names. *)
Definition serialize_object (fuel : nat) (h : gmap address pattern_object)
    (pattern : address) (emit_size : bool) : option (list byte) :=
  match serialize_object_to fuel h pattern new_serializer with
  | Some out =>
      let out := if emit_size then correct_emitted_size out else out in
      Some (byte_string out)
  | None => None
  end.

End SerializeObject.

(* ===================================================================== *)
(** * Part VII.  The vocabulary of the proofs *)
(* ===================================================================== *)

(** ** The streaming reader *)

(** The claim as the specification has it, on a journaled source: if one
    of the reads made returned fewer bytes than it was asked for, the
    outcome is a short-read error. *)
Definition short_reads_fail {S : Type} {source : ByteSource S}
    {magic : MagicHeader} {kllvm : Deserializer} (s : S) : Prop :=
  forall (r : result KOREPattern) (j : journaled S),
    read_pattern_from_file (py_file_like {| inner := s; journal := [] |})
      = (r, py_file_like j) ->
    existsb short_read (journal j) = true ->
    exists e, r = Err e /\ spec_kind e = Some ShortReadError.

(** The reader's own three failures, thrown at lines 86, 96 and 106. *)
Definition raised_by_reader (e : exception) : Prop :=
  e = invalid_argument bad_header_message
  \/ e = invalid_argument old_version_message
  \/ e = invalid_argument missing_size_message.

(** ** What the round trip is proved from *)

(** [bs] stands in [buf] at offset [pos]. *)
Definition holds (buf : list byte) (pos : nat) (bs : list byte) : Prop :=
  exists pre rest, buf = pre ++ bs ++ rest /\ length pre = pos.

(** A name written in full. *)
Definition direct_encoding (s : string) : list byte :=
  direct_string_prefix
  :: encode_length (N.of_nat (length (list_byte_of_string s)))
  ++ list_byte_of_string s.

(** The body: what the serializer wrote after the framing. *)
Definition body_of (out : serializer) : list byte := drop body_start (buffer out).

(** The invariant of the serializer: the framing is there, and every name
    of the table stands in full in the body, where the table says. *)
Definition table_sound (out : serializer) : Prop :=
  (body_start <= length (buffer out))%nat /\
  forall (s : string) (pos : nat),
    intern_table out !! s = Some pos ->
    (body_start <= pos)%nat /\
    holds (body_of out) (pos - body_start) (direct_encoding s).

(** From a sound serializer [out], the writer reaches [out'] by appending
    at least [w] bytes, [out'] is sound, and the decoder [d], started in
    the body where [out] ended, reads [x] and stops where [out'] ends,
    whatever follows. *)
Definition step {A : Type} (out out' : serializer) (d : Dec A) (x : A) (w : nat) : Prop :=
  table_sound out ->
  table_sound out' /\
  exists bs,
    buffer out' = buffer out ++ bs /\
    (w <= length bs)%nat /\
    forall k,
      d (body_of out ++ bs ++ k) (length (body_of out))
      = Ok (x, (length (body_of out) + length bs)%nat).

(** The number of nodes of a sort, of a symbol, of a pattern: a bound on
    the nesting, and on the bytes written. *)
Fixpoint sort_size (s : KORESort) : nat :=
  match s with
  | KORESortVariable _ => 1
  | KORECompositeSort _ _ arguments => S (list_sum (map sort_size arguments))
  end.

(** The sorts of a symbol. *)
Definition symbol_size (sym : KORESymbol) : nat :=
  list_sum (map sort_size (symbol_arguments sym))
  + list_sum (map sort_size (symbol_formal_arguments sym))
  + match symbol_sort sym with
    | Some s => sort_size s
    | None => 0
    end.

Fixpoint pattern_size (p : KOREPattern) : nat :=
  match p with
  | KORECompositePattern constructor arguments =>
      S (symbol_size constructor + list_sum (map pattern_size arguments))
  | KOREVariablePattern _ sort => S (sort_size sort)
  | KOREStringPattern _ => 1
  end.

(** The invariant of section 3: every composite pattern of the tree has as
    many arguments as its constructor has argument sorts. *)
Fixpoint well_formed (p : KOREPattern) : bool :=
  match p with
  | KORECompositePattern constructor arguments =>
      (length arguments =? arity constructor)%nat && forallb well_formed arguments
  | KOREVariablePattern _ _ => true
  | KOREStringPattern _ => true
  end.

(* ===================================================================== *)
(** * Part VIII.  Samples *)
(* ===================================================================== *)

(** One choice of what the specification leaves open, to run the
    definitions on: a magic header of five bytes, version 1.2.0, every
    version of major 1 supported, nothing stripped. *)
Definition sample_magic : MagicHeader :=
  {| magic_header := [x7f; x4b; x4f; x52; x45]; magic_header_size := eq_refl |}.

Definition sample_format : Format :=
  {| format_version := Version 1 2 0;
     format_version_fits := conj eq_refl (conj eq_refl eq_refl);
     format_version_sized := eq_refl;
     supported_version := fun v => v_major v =? 1;
     supported_version_current := eq_refl;
     raw_term_stripped := fun p => p |}.

(** A sort, a symbol of two arguments and a pattern of that symbol. *)
Definition sample_sort : KORESort :=
  KORECompositeSort "SortInt" {| cat := SortCategory.Int; bits := 0 |} [].

Definition sample_symbol : KORESymbol :=
  {| symbol_name := "Lbl'Plus'";
     symbol_arguments := [sample_sort; sample_sort];
     symbol_formal_arguments := [];
     symbol_sort := Some sample_sort |}.

Definition sample_pattern : KOREPattern :=
  KORECompositePattern sample_symbol
    [KOREVariablePattern "X" sample_sort; KOREStringPattern "SortInt"].

(** An in-memory source at its start. *)
Definition bytes_io (data : list byte) : cursor :=
  {| cur_data := data; cur_pos := 0 |}.

(** The same, keeping a journal of the reads made on it. *)
Definition journaled_bytes_io (data : list byte) : journaled cursor :=
  {| inner := bytes_io data; journal := [] |}.

(** A stream that announces a body of 200 bytes and holds one of 4: the
    framing of the sample instance, then the string pattern "a". *)
Definition truncated_stream : list byte :=
  magic_header (MagicHeader := sample_magic)
  ++ version_bytes (Version 1 2 0)
  ++ to_bytes 8 200
  ++ [string_pattern_tag; direct_string_prefix; x01; x61].

(** The sample pattern framed as version 1.1.0 and as version 1.2.0. *)
Definition framed_as (v : binary_version) (body : list byte) : list byte :=
  magic_header (MagicHeader := sample_magic)
  ++ version_bytes v
  ++ to_bytes 8 (N.of_nat (length body))
  ++ body.

(** The body of the sample pattern: its serialization without the framing. *)
Definition sample_body : list byte :=
  drop body_start
    (serialize (magic := sample_magic) (format := sample_format) sample_pattern true).

(** The sample pattern serialized without its size. *)
Definition unsized_stream : list byte :=
  serialize (magic := sample_magic) (format := sample_format) sample_pattern false.

(** Two framed patterns one after the other in one source. *)
Definition two_patterns : list byte :=
  serialize (magic := sample_magic) (format := sample_format) sample_pattern true
  ++ serialize (magic := sample_magic) (format := sample_format)
       (KOREStringPattern "SortInt") true.

(** The sample pattern built top-down: the composite first, then its
    arguments, then the two [add_argument]. *)
Definition built_top_down : address * gmap address pattern_object :=
  let '(f, h) := create_composite sample_symbol ∅ in
  let '(x, h) := create_variable "X" sample_sort h in
  let '(s, h) := create_string "SortInt" h in
  (f, default h (h1 ← add_argument f x h; add_argument f s h1)).

(** The same built bottom-up, the arguments allocated first and in the
    other order, beside an object that takes no part. *)
Definition built_bottom_up : address * gmap address pattern_object :=
  let '(_, h) := create_string "unrelated" ∅ in
  let '(s, h) := create_string "SortInt" h in
  let '(x, h) := create_variable "X" sample_sort h in
  let '(f, h) := create_composite sample_symbol h in
  (f, default h (h1 ← add_argument f x h; add_argument f s h1)).

(* ===================================================================== *)
(** * Part IX.  The streaming reader, as the binding has it *)
(* ===================================================================== *)

(** ** The header comparison *)

Lemma std_equal_refl (xs : list byte) : std_equal xs xs = true.
Proof.
  induction xs as [|x xs IH]; simpl; [reflexivity|].
  rewrite IH, andb_true_r. apply Byte.byte_dec_lb. reflexivity.
Qed.

Lemma std_equal_same_length (xs ref : list byte) :
  length xs = length ref -> std_equal xs ref = true -> xs = ref.
Proof.
  revert ref. induction xs as [|x xs IH]; intros [|r ref] Hlen Heq;
    simpl in *; try discriminate; [reflexivity|].
  apply andb_true_iff in Heq as [Hx Hxs].
  apply Byte.byte_dec_bl in Hx. subst r.
  f_equal. apply IH; [lia | exact Hxs].
Qed.

(** The comparison accepts exactly the prefixes of the reference. *)
Lemma std_equal_prefix (xs ref : list byte) :
  std_equal xs ref = true <-> xs = take (length xs) ref.
Proof.
  revert ref. induction xs as [|x xs IH]; intros [|r ref]; simpl.
  - split; reflexivity.
  - split; reflexivity.
  - split; discriminate.
  - rewrite andb_true_iff, IH. split.
    + intros [Hx Hxs]. apply Byte.byte_dec_bl in Hx. subst r. f_equal. exact Hxs.
    + intros Heq. injection Heq as Hx Hxs. subst r. split; [|exact Hxs].
      apply Byte.byte_dec_lb. reflexivity.
Qed.

Section ReaderFacts.
Context {S : Type} {source : ByteSource S} {magic : MagicHeader} {kllvm : Deserializer}.

Ltac run_reader :=
  unfold read_pattern_from_file, hasattr_read, read_framed_pattern,
    read_sized_pattern, reader_bind, read_len, lift, throw; cbn [negb].

(** The four stages, one lemma each.  They are what the claims below and
    the equivalence with the whole-buffer path are proved from. *)
Lemma reader_bad_header (s s1 : S) (header : list byte) :
  src_read 5 s = (header, s1) ->
  std_equal header magic_header = false ->
  read_framed_pattern s = (Err (invalid_argument bad_header_message), s1).
Proof.
  intros Hread Hneq. run_reader. rewrite Hread, Hneq. reflexivity.
Qed.

Lemma reader_version_failure (s s1 s2 : S) (header vb : list byte) (e : exception) :
  src_read 5 s = (header, s1) ->
  std_equal header magic_header = true ->
  src_read 6 s1 = (vb, s2) ->
  read_version vb = Err e ->
  read_framed_pattern s = (Err e, s2).
Proof.
  intros Hread Heq Hread2 Hv. run_reader.
  rewrite Hread, Heq. simpl. rewrite Hread2, Hv. reflexivity.
Qed.

Lemma reader_old_version (s s1 s2 : S) (header vb : list byte) (v : binary_version) :
  src_read 5 s = (header, s1) ->
  std_equal header magic_header = true ->
  src_read 6 s1 = (vb, s2) ->
  read_version vb = Ok v ->
  version_ltb v (Version 1 2 0) = true ->
  read_framed_pattern s = (Err (invalid_argument old_version_message), s2).
Proof.
  intros Hread Heq Hread2 Hv Hlt. run_reader.
  rewrite Hread, Heq. simpl. rewrite Hread2, Hv, Hlt. reflexivity.
Qed.

Lemma reader_gate_passed (s s1 s2 : S) (header vb : list byte) (v : binary_version) :
  src_read 5 s = (header, s1) ->
  std_equal header magic_header = true ->
  src_read 6 s1 = (vb, s2) ->
  read_version vb = Ok v ->
  version_ltb v (Version 1 2 0) = false ->
  read_framed_pattern s = read_sized_pattern v s2.
Proof.
  intros Hread Heq Hread2 Hv Hlt.
  unfold read_framed_pattern, reader_bind, read_len, lift, throw.
  rewrite Hread, Heq. simpl. rewrite Hread2, Hv, Hlt. reflexivity.
Qed.

Lemma reader_size_failure (s2 s3 : S) (sb : list byte) (v : binary_version) (e : exception) :
  src_read 8 s2 = (sb, s3) ->
  read_pattern_size_unchecked sb = Err e ->
  read_sized_pattern v s2 = (Err e, s3).
Proof.
  intros Hread Hsize. run_reader. rewrite Hread, Hsize. reflexivity.
Qed.

Lemma reader_zero_size (s2 s3 : S) (sb : list byte) (v : binary_version) :
  src_read 8 s2 = (sb, s3) ->
  read_pattern_size_unchecked sb = Ok 0 ->
  read_sized_pattern v s2 = (Err (invalid_argument missing_size_message), s3).
Proof.
  intros Hread Hsize. run_reader. rewrite Hread, Hsize. reflexivity.
Qed.

Lemma reader_body (s2 s3 s4 : S) (sb body : list byte) (v : binary_version) (size : N) :
  src_read 8 s2 = (sb, s3) ->
  read_pattern_size_unchecked sb = Ok size ->
  size <> 0 ->
  src_read size s3 = (body, s4) ->
  read_sized_pattern v s2 = (read body v, s4).
Proof.
  intros Hread Hsize Hnz Hbody. run_reader. rewrite Hread, Hsize.
  apply N.eqb_neq in Hnz. rewrite Hnz, Hbody. reflexivity.
Qed.

(** ** C4 *)

(** C4.  When the five bytes the first [read] returns differ from the
    magic constant, [read_from] fails with the bad-header
    [std::invalid_argument], the [FormatError] of the specification, and
    the source is left as that one [read(5)] left it: nothing more was
    asked of it. *)
Theorem read_from_rejects_bad_magic (s s1 : S) (header : list byte) :
  src_read 5 s = (header, s1) ->
  length header = 5%nat ->
  header <> magic_header ->
  read_pattern_from_file (py_file_like s)
    = (Err (invalid_argument bad_header_message), py_file_like s1)
  /\ spec_kind (invalid_argument bad_header_message) = Some FormatError.
Proof.
  intros Hread Hlen Hneq. split; [|reflexivity].
  unfold read_pattern_from_file, hasattr_read. cbn [negb].
  rewrite (reader_bad_header s s1 header Hread); [reflexivity|].
  destruct (std_equal header magic_header) eqn:E; [|reflexivity].
  exfalso. apply Hneq. apply std_equal_same_length; [|exact E].
  rewrite Hlen. symmetry. apply magic_header_size.
Qed.

(** ** C5 *)

(** C5.  Behind a matching header, a version triple below 1.2.0 makes
    [read_from] fail with the old-version [std::invalid_argument], the
    [UnsupportedVersionError] of the specification, whatever follows in
    the stream; a triple that is not below 1.2.0 passes the gate, and the
    reader goes on with the size field. *)
Theorem read_from_version_gate (s s1 s2 : S) (header vb : list byte) (v : binary_version) :
  src_read 5 s = (header, s1) ->
  std_equal header magic_header = true ->
  src_read 6 s1 = (vb, s2) ->
  read_version vb = Ok v ->
  (version_ltb v (Version 1 2 0) = true ->
     read_pattern_from_file (py_file_like s)
       = (Err (invalid_argument old_version_message), py_file_like s2)
     /\ spec_kind (invalid_argument old_version_message) = Some UnsupportedVersionError)
  /\ (version_ltb v (Version 1 2 0) = false ->
     read_pattern_from_file (py_file_like s)
       = (let '(r, s') := read_sized_pattern v s2 in (r, py_file_like s'))).
Proof.
  intros Hread Heq Hread2 Hv. split; intros Hgate.
  - split; [|reflexivity]. unfold read_pattern_from_file, hasattr_read. cbn [negb].
    rewrite (reader_old_version s s1 s2 header vb v); auto.
  - unfold read_pattern_from_file, hasattr_read. cbn [negb].
    rewrite (reader_gate_passed s s1 s2 header vb v); auto.
Qed.

(** ** C6 *)

(** C6.  Behind a matching header and a version that passes the gate, a
    size field that decodes to zero makes [read_from] fail with the
    missing-size [std::invalid_argument], the [MissingSizeError] of the
    specification.  The source is left as the [read(8)] left it: no body
    was read, and the statement holds whatever the body decoder is. *)
Theorem read_from_rejects_zero_size
    (s s1 s2 s3 : S) (header vb sb : list byte) (v : binary_version) :
  src_read 5 s = (header, s1) ->
  std_equal header magic_header = true ->
  src_read 6 s1 = (vb, s2) ->
  read_version vb = Ok v ->
  version_ltb v (Version 1 2 0) = false ->
  src_read 8 s2 = (sb, s3) ->
  read_pattern_size_unchecked sb = Ok 0 ->
  read_pattern_from_file (py_file_like s)
    = (Err (invalid_argument missing_size_message), py_file_like s3)
  /\ spec_kind (invalid_argument missing_size_message) = Some MissingSizeError.
Proof.
  intros Hread Heq Hread2 Hv Hgate Hread3 Hsize. split; [|reflexivity].
  unfold read_pattern_from_file, hasattr_read. cbn [negb].
  rewrite (reader_gate_passed s s1 s2 header vb v); auto.
  rewrite (reader_zero_size s2 s3 sb v); auto.
Qed.

(** ** C10 *)

(** C10.  An argument without a [read] attribute makes [read_from] fail
    with [py::type_error], and the object is handed back as it was: the
    test comes before anything is read. *)
Theorem read_from_rejects_non_file (o : py_object S) :
  hasattr_read o = false ->
  read_pattern_from_file o = (Err (type_error not_file_like_message), o)
  /\ spec_kind (type_error not_file_like_message) = Some TypeError.
Proof.
  intros Hattr. split; [|reflexivity].
  destruct o; simpl in Hattr; try discriminate; reflexivity.
Qed.

End ReaderFacts.

(** ** C3 *)

Section NoLengthCheck.
Context {S : Type} {source : ByteSource S} {magic : MagicHeader} {kllvm : Deserializer}.

(** C3, amended.  [read_from] has no short-read error and never compares
    the number of bytes a [read] returned with the number it asked for:
    whatever each read returns, short or not, is used as it is.  Header
    bytes the comparison of line 85 does not match give the bad-header
    failure; otherwise the bytes of the second read go to [read_version],
    those of the third to [read_pattern_size_unchecked] and those of the
    fourth to the body decoder, and the outcome is theirs, or that of the
    version gate or of the zero-size test.  No hypothesis bounds the
    length of what a read returned from below; the first read is taken to
    return at most five bytes, beyond which line 85 reads past the
    constant.  None of the reader's own three failures is a short-read
    error. *)
Theorem read_from_passes_on_what_it_reads (s s1 : S) (header : list byte) :
  src_read 5 s = (header, s1) ->
  (length header <= 5)%nat ->
  (std_equal header magic_header = false ->
     read_pattern_from_file (py_file_like s)
     = (Err (invalid_argument bad_header_message), py_file_like s1))
  /\ (std_equal header magic_header = true ->
      forall (vb : list byte) (s2 : S),
        src_read 6 s1 = (vb, s2) ->
        (forall e : exception,
            read_version vb = Err e ->
            read_pattern_from_file (py_file_like s) = (Err e, py_file_like s2))
        /\ (forall v : binary_version,
            read_version vb = Ok v ->
            (version_ltb v (Version 1 2 0) = true ->
               read_pattern_from_file (py_file_like s)
               = (Err (invalid_argument old_version_message), py_file_like s2))
            /\ (version_ltb v (Version 1 2 0) = false ->
                forall (sb : list byte) (s3 : S),
                  src_read 8 s2 = (sb, s3) ->
                  (forall e : exception,
                      read_pattern_size_unchecked sb = Err e ->
                      read_pattern_from_file (py_file_like s) = (Err e, py_file_like s3))
                  /\ (read_pattern_size_unchecked sb = Ok 0 ->
                      read_pattern_from_file (py_file_like s)
                      = (Err (invalid_argument missing_size_message), py_file_like s3))
                  /\ (forall size : N,
                      read_pattern_size_unchecked sb = Ok size ->
                      size <> 0 ->
                      forall (body : list byte) (s4 : S),
                        src_read size s3 = (body, s4) ->
                        read_pattern_from_file (py_file_like s)
                        = (read body v, py_file_like s4)))))
  /\ (forall e : exception, raised_by_reader e -> spec_kind e <> Some ShortReadError).
Proof.
  intros Hread _. split; [|split].
  - intros Hneq. unfold read_pattern_from_file, hasattr_read. cbn [negb].
    rewrite (reader_bad_header s s1 header Hread Hneq). reflexivity.
  - intros Heq vb s2 Hread2. split.
    + intros e Hv. unfold read_pattern_from_file, hasattr_read. cbn [negb].
      rewrite (reader_version_failure s s1 s2 header vb e Hread Heq Hread2 Hv).
      reflexivity.
    + intros v Hv. split.
      * intros Hgate. unfold read_pattern_from_file, hasattr_read. cbn [negb].
        rewrite (reader_old_version s s1 s2 header vb v Hread Heq Hread2 Hv Hgate).
        reflexivity.
      * intros Hgate sb s3 Hread3.
        assert (Hrun : read_pattern_from_file (py_file_like s)
                       = (let '(r, s') := read_sized_pattern v s2 in (r, py_file_like s'))).
        { unfold read_pattern_from_file, hasattr_read. cbn [negb].
          rewrite (reader_gate_passed s s1 s2 header vb v Hread Heq Hread2 Hv Hgate).
          reflexivity. }
        rewrite Hrun. split; [|split].
        -- intros e Hsize. rewrite (reader_size_failure s2 s3 sb v e Hread3 Hsize).
           reflexivity.
        -- intros Hsize. rewrite (reader_zero_size s2 s3 sb v Hread3 Hsize).
           reflexivity.
        -- intros size Hsize Hnz body s4 Hread4.
           rewrite (reader_body s2 s3 s4 sb body v size Hread3 Hsize Hnz Hread4).
           reflexivity.
  - intros e [-> | [-> | ->]]; discriminate.
Qed.

End NoLengthCheck.

(** None of the reader's own failures is a short-read error. *)
Lemma raised_by_reader_kind (e : exception) :
  raised_by_reader e -> spec_kind e <> Some ShortReadError.
Proof.
  intros [-> | [-> | ->]]; discriminate.
Qed.

(** C3, as stated, fails.  On a source of one byte the [read(5)] is short
    and the outcome is the bad-header failure, not a short-read error; on
    [truncated_stream] the body read returns 4 bytes of the 200 asked for
    and the pattern decoded from them is returned. *)
Lemma short_read_is_not_reported :
  read_pattern_from_file (magic := sample_magic) (kllvm := modelled_deserializer)
      (py_file_like (journaled_bytes_io [x00]))
    = (Err (invalid_argument bad_header_message),
       py_file_like {| inner := {| cur_data := [x00]; cur_pos := 1 |};
                       journal := [(5, 1%nat)] |})
  /\ existsb short_read [(5, 1%nat)] = true
  /\ spec_kind (invalid_argument bad_header_message) = Some FormatError
  /\ ~ short_reads_fail (magic := sample_magic) (kllvm := modelled_deserializer)
         (bytes_io [x00])
  /\ read_pattern_from_file (magic := sample_magic) (kllvm := modelled_deserializer)
         (py_file_like (journaled_bytes_io truncated_stream))
     = (Ok (KOREStringPattern "a"),
        py_file_like {| inner := {| cur_data := truncated_stream; cur_pos := 23 |};
                        journal := [(5, 5%nat); (6, 6%nat); (8, 8%nat); (200, 4%nat)] |}).
Proof.
  split; [vm_compute; reflexivity|].
  split; [reflexivity|].
  split; [reflexivity|].
  split; [|vm_compute; reflexivity].
  intros Hclaim.
  destruct (Hclaim (Err (invalid_argument bad_header_message))
              {| inner := {| cur_data := [x00]; cur_pos := 1 |};
                 journal := [(5, 1%nat)] |}) as [e [He Hkind]].
  - vm_compute. reflexivity.
  - reflexivity.
  - injection He as <-. discriminate Hkind.
Qed.

(** ** The claims above at concrete streams *)

(** C3, amended, on [truncated_stream]: the 4 bytes the last read returns
    for the 200 asked for are decoded and returned. *)
Lemma read_from_passes_on_what_it_reads_witness :
  read_pattern_from_file (magic := sample_magic) (kllvm := modelled_deserializer)
      (py_file_like (bytes_io truncated_stream))
  = (Ok (KOREStringPattern "a"),
     py_file_like {| cur_data := truncated_stream; cur_pos := 23 |}).
Proof.
  assert (H1 : src_read 5 (bytes_io truncated_stream)
               = ([x7f; x4b; x4f; x52; x45],
                  {| cur_data := truncated_stream; cur_pos := 5 |}))
    by reflexivity.
  destruct (read_from_passes_on_what_it_reads
              (magic := sample_magic) (kllvm := modelled_deserializer)
              _ _ _ H1 (le_n 5))
    as (_ & Hmatched & _).
  assert (H2 : src_read 6 {| cur_data := truncated_stream; cur_pos := 5 |}
               = (version_bytes (Version 1 2 0),
                  {| cur_data := truncated_stream; cur_pos := 11 |}))
    by reflexivity.
  destruct (Hmatched eq_refl _ _ H2) as (_ & Hversion).
  destruct (Hversion (Version 1 2 0) eq_refl) as (_ & Hgate).
  assert (H3 : src_read 8 {| cur_data := truncated_stream; cur_pos := 11 |}
               = (to_bytes 8 200, {| cur_data := truncated_stream; cur_pos := 19 |}))
    by reflexivity.
  destruct (Hgate eq_refl _ _ H3) as (_ & _ & Hbody).
  assert (H4 : src_read 200 {| cur_data := truncated_stream; cur_pos := 19 |}
               = ([string_pattern_tag; direct_string_prefix; x01; x61],
                  {| cur_data := truncated_stream; cur_pos := 23 |}))
    by reflexivity.
  assert (Hnz : (200 : N) <> 0) by discriminate.
  exact (Hbody 200 eq_refl Hnz _ _ H4).
Defined.

(** C4 on a source of six bytes that does not start with the magic
    header: the failure, and the cursor after five bytes. *)
Lemma read_from_rejects_bad_magic_witness :
  read_pattern_from_file (magic := sample_magic) (kllvm := modelled_deserializer)
      (py_file_like (bytes_io [x7f; x4b; x4f; x52; x00; x01]))
    = (Err (invalid_argument bad_header_message),
       py_file_like {| cur_data := [x7f; x4b; x4f; x52; x00; x01]; cur_pos := 5 |})
  /\ spec_kind (invalid_argument bad_header_message) = Some FormatError.
Proof.
  apply (read_from_rejects_bad_magic
           (magic := sample_magic) (kllvm := modelled_deserializer)
           (bytes_io [x7f; x4b; x4f; x52; x00; x01])
           {| cur_data := [x7f; x4b; x4f; x52; x00; x01]; cur_pos := 5 |}
           [x7f; x4b; x4f; x52; x00]).
  - reflexivity.
  - reflexivity.
  - discriminate.
Defined.

(** C5 at 1.1.0 and at 1.2.0: the first stream is refused at the gate,
    after the eleven bytes of header and version; the second passes it. *)
Lemma read_from_version_gate_witness :
  read_pattern_from_file (magic := sample_magic) (kllvm := modelled_deserializer)
      (py_file_like (bytes_io (framed_as (Version 1 1 0) sample_body)))
    = (Err (invalid_argument old_version_message),
       py_file_like {| cur_data := framed_as (Version 1 1 0) sample_body;
                       cur_pos := 11 |})
  /\ read_pattern_from_file (magic := sample_magic) (kllvm := modelled_deserializer)
      (py_file_like (bytes_io (framed_as (Version 1 2 0) sample_body)))
    = (Ok sample_pattern,
       py_file_like {| cur_data := framed_as (Version 1 2 0) sample_body;
                       cur_pos := 74 |}).
Proof.
  split.
  - refine (proj1 (proj1 (read_from_version_gate
             (magic := sample_magic) (kllvm := modelled_deserializer)
             (bytes_io (framed_as (Version 1 1 0) sample_body))
             {| cur_data := framed_as (Version 1 1 0) sample_body; cur_pos := 5 |}
             {| cur_data := framed_as (Version 1 1 0) sample_body; cur_pos := 11 |}
             [x7f; x4b; x4f; x52; x45]
             (version_bytes (Version 1 1 0))
             (Version 1 1 0) _ _ _ _) _));
      vm_compute; reflexivity.
  - refine (eq_trans (proj2 (read_from_version_gate
               (magic := sample_magic) (kllvm := modelled_deserializer)
               (bytes_io (framed_as (Version 1 2 0) sample_body))
               {| cur_data := framed_as (Version 1 2 0) sample_body; cur_pos := 5 |}
               {| cur_data := framed_as (Version 1 2 0) sample_body; cur_pos := 11 |}
               [x7f; x4b; x4f; x52; x45]
               (version_bytes (Version 1 2 0))
               (Version 1 2 0) _ _ _ _) _) _);
      vm_compute; reflexivity.
Defined.

(** C6 on a stream of version 1.2.0 whose size field is zero: the
    failure, and the cursor after the nineteen bytes of framing. *)
Lemma read_from_rejects_zero_size_witness :
  read_pattern_from_file (magic := sample_magic) (kllvm := modelled_deserializer)
      (py_file_like (bytes_io unsized_stream))
    = (Err (invalid_argument missing_size_message),
       py_file_like {| cur_data := unsized_stream; cur_pos := 19 |})
  /\ spec_kind (invalid_argument missing_size_message) = Some MissingSizeError.
Proof.
  apply (read_from_rejects_zero_size
           (magic := sample_magic) (kllvm := modelled_deserializer)
           (bytes_io unsized_stream)
           {| cur_data := unsized_stream; cur_pos := 5 |}
           {| cur_data := unsized_stream; cur_pos := 11 |}
           {| cur_data := unsized_stream; cur_pos := 19 |}
           [x7f; x4b; x4f; x52; x45]
           (version_bytes (Version 1 2 0))
           (to_bytes 8 0)
           (Version 1 2 0));
    reflexivity.
Defined.

(** C10 on a [bytes] object handed over in place of a file. *)
Lemma read_from_rejects_non_file_witness :
  read_pattern_from_file (S := cursor) (magic := sample_magic)
      (kllvm := modelled_deserializer) (py_bytes unsized_stream)
    = (Err (type_error not_file_like_message), py_bytes unsized_stream)
  /\ spec_kind (type_error not_file_like_message) = Some TypeError.
Proof.
  apply (read_from_rejects_non_file
           (S := cursor) (magic := sample_magic) (kllvm := modelled_deserializer)
           (py_bytes unsized_stream)).
  reflexivity.
Defined.

(* ===================================================================== *)
(** * Part X.  The codec: what is written is read back *)
(* ===================================================================== *)

(** ** Numbers and bytes *)

Lemma byte_of_N_to_N (n : N) : n < 256 -> Byte.to_N (byte_of_N n) = n.
Proof.
  intros Hn. unfold byte_of_N.
  destruct (Byte.of_N n) as [b|] eqn:E.
  - apply Byte.to_of_N. exact E.
  - apply Byte.of_N_None_iff in E. lia.
Qed.

Lemma length_to_bytes (width : nat) (n : N) : length (to_bytes width n) = width.
Proof.
  revert n. induction width as [|w IH]; intros n; simpl; [reflexivity|].
  rewrite IH. reflexivity.
Qed.

Lemma from_bytes_to_bytes (width : nat) (n : N) :
  from_bytes (to_bytes width n) = n mod 256 ^ N.of_nat width.
Proof.
  revert n. induction width as [|w IH]; intros n.
  - simpl. rewrite N.mod_1_r. reflexivity.
  - cbn [to_bytes from_bytes]. rewrite IH.
    rewrite byte_of_N_to_N by (apply N.mod_lt; discriminate).
    rewrite Nat2N.inj_succ, N.pow_succ_r'.
    rewrite N.Div0.mod_mul_r. reflexivity.
Qed.

Lemma from_bytes_to_bytes_small (width : nat) (n : N) :
  n < 256 ^ N.of_nat width -> from_bytes (to_bytes width n) = n.
Proof.
  intros Hn. rewrite from_bytes_to_bytes. apply N.mod_small. exact Hn.
Qed.

Lemma encode_length_groups_unfold (g : nat) (n : N) :
  encode_length_groups (S g) n
  = if n <? 128 then [byte_of_N n]
    else byte_of_N (128 + n mod 128) :: encode_length_groups g (n / 128).
Proof. reflexivity. Qed.

Lemma decode_encode_length_groups (g : nat) (n : N) (rest : list byte) :
  n < 128 ^ N.of_nat (S g) ->
  decode_length (encode_length_groups (S g) n ++ rest)
  = Some (n, length (encode_length_groups (S g) n)).
Proof.
  revert n. induction g as [|g IH]; intros n Hn;
    rewrite encode_length_groups_unfold; destruct (n <? 128) eqn:Hsmall.
  - apply N.ltb_lt in Hsmall. cbn [app decode_length length].
    rewrite byte_of_N_to_N by lia.
    apply N.ltb_lt in Hsmall. rewrite Hsmall. reflexivity.
  - apply N.ltb_ge in Hsmall. simpl in Hn. lia.
  - apply N.ltb_lt in Hsmall. cbn [app decode_length length].
    rewrite byte_of_N_to_N by lia.
    apply N.ltb_lt in Hsmall. rewrite Hsmall. reflexivity.
  - apply N.ltb_ge in Hsmall.
    assert (Hmod : n mod 128 < 128) by (apply N.mod_lt; discriminate).
    assert (Hdiv : n = 128 * (n / 128) + n mod 128) by (apply N.div_mod; discriminate).
    assert (Hrec : n / 128 < 128 ^ N.of_nat (S g)).
    { apply N.Div0.div_lt_upper_bound.
      rewrite Nat2N.inj_succ, N.pow_succ_r' in Hn. exact Hn. }
    specialize (IH (n / 128) Hrec).
    set (r := n mod 128) in *. set (q := n / 128) in *. clearbody r q.
    cbn [app decode_length length].
    rewrite byte_of_N_to_N by lia.
    replace (128 + r <? 128) with false by (symmetry; apply N.ltb_ge; lia).
    rewrite IH. f_equal. f_equal. lia.
Qed.

Lemma encode_length_fits (n : N) : n < 128 ^ N.of_nat (S (N.to_nat (N.log2 n))).
Proof.
  rewrite Nat2N.inj_succ, N2Nat.id.
  destruct (N.eq_dec n 0) as [->|Hn]; [reflexivity|].
  assert (Hlog : n < 2 ^ N.succ (N.log2 n)) by (apply N.log2_spec; lia).
  eapply N.lt_le_trans; [exact Hlog|].
  apply N.pow_le_mono_l. lia.
Qed.

Lemma decode_encode_length (n : N) (rest : list byte) :
  decode_length (encode_length n ++ rest) = Some (n, length (encode_length n)).
Proof.
  unfold encode_length. apply decode_encode_length_groups. apply encode_length_fits.
Qed.

Lemma encode_length_nonempty (n : N) : (1 <= length (encode_length n))%nat.
Proof.
  unfold encode_length. rewrite encode_length_groups_unfold.
  destruct (n <? 128); simpl; lia.
Qed.

(** ** The decoders on what the writers wrote *)

Lemma holds_app (buf k : list byte) (pos : nat) (bs : list byte) :
  holds buf pos bs -> holds (buf ++ k) pos bs.
Proof.
  intros (pre & rest & -> & Hlen). exists pre, (rest ++ k).
  split; [|exact Hlen]. rewrite <- !app_assoc. reflexivity.
Qed.

Lemma holds_end (buf bs k : list byte) : holds (buf ++ bs ++ k) (length buf) bs.
Proof. exists buf, k. split; reflexivity. Qed.

Lemma holds_bound (buf : list byte) (pos : nat) (bs : list byte) :
  holds buf pos bs -> (pos + length bs <= length buf)%nat.
Proof.
  intros (pre & rest & -> & <-). rewrite !length_app. lia.
Qed.

Lemma holds_drop (buf : list byte) (pos : nat) (bs : list byte) :
  holds buf pos bs -> exists rest, drop pos buf = bs ++ rest.
Proof.
  intros (pre & rest & -> & <-). exists rest. apply drop_app_length.
Qed.

Lemma drop_after (buf a rest : list byte) (pos : nat) :
  drop pos buf = a ++ rest -> drop (pos + length a) buf = rest.
Proof.
  intros Hdrop. rewrite <- drop_drop, Hdrop. apply drop_app_length.
Qed.

Lemma drop_within (buf bs : list byte) (pos : nat) :
  drop pos buf = bs -> (pos + length bs <= length buf)%nat \/ bs = [].
Proof.
  intros <-. rewrite length_drop.
  destruct (decide (pos <= length buf)%nat) as [Hle|Hgt]; [left; lia|].
  right. apply drop_ge. lia.
Qed.

Lemma read_byte_drop (buf rest : list byte) (pos : nat) (b : byte) :
  drop pos buf = b :: rest -> read_byte buf pos = Ok (b, S pos).
Proof.
  intros Hdrop. unfold read_byte.
  assert (Hb : buf !! pos = Some b).
  { rewrite <- (Nat.add_0_r pos), <- lookup_drop, Hdrop. reflexivity. }
  rewrite Hb. reflexivity.
Qed.

Lemma expect_byte_drop (buf rest : list byte) (pos : nat) (b : byte) :
  drop pos buf = b :: rest -> expect_byte b buf pos = Ok (tt, S pos).
Proof.
  intros Hdrop. unfold expect_byte, dec_bind.
  rewrite (read_byte_drop buf rest pos b Hdrop).
  rewrite (Byte.byte_dec_lb eq_refl). reflexivity.
Qed.

Lemma read_length_drop (buf rest : list byte) (pos : nat) (n : N) :
  drop pos buf = encode_length n ++ rest ->
  read_length buf pos = Ok (n, (pos + length (encode_length n))%nat).
Proof.
  intros Hdrop. unfold read_length.
  rewrite Hdrop, decode_encode_length. reflexivity.
Qed.

Lemma read_chars_drop (buf rest data : list byte) (pos : nat) :
  (pos <= length buf)%nat ->
  drop pos buf = data ++ rest ->
  read_chars (N.of_nat (length data)) buf pos
  = Ok (string_of_list_byte data, (pos + length data)%nat).
Proof.
  intros Hpos Hdrop. unfold read_chars.
  assert (Hlen : length buf = (pos + (length data + length rest))%nat).
  { rewrite <- length_app, <- Hdrop, length_drop. lia. }
  replace (N.of_nat (length buf) <? N.of_nat pos + N.of_nat (length data)) with false
    by (symmetry; apply N.ltb_ge; lia).
  rewrite Nat2N.id, Hdrop, take_app_length. reflexivity.
Qed.

Lemma read_direct_string_drop (buf rest : list byte) (pos : nat) (s : string) :
  drop pos buf = direct_encoding s ++ rest ->
  read_direct_string buf pos = Ok (s, (pos + length (direct_encoding s))%nat).
Proof.
  unfold direct_encoding. intros Hdrop.
  set (data := list_byte_of_string s) in *.
  set (enc := encode_length (N.of_nat (length data))) in *.
  assert (H1 : drop (S pos) buf = enc ++ data ++ rest).
  { replace (S pos) with (pos + length [direct_string_prefix])%nat by (simpl; lia).
    apply drop_after. rewrite Hdrop. cbn [app]. rewrite <- app_assoc. reflexivity. }
  assert (H2 : drop (S pos + length enc) buf = data ++ rest).
  { apply drop_after. exact H1. }
  assert (Hpos : (S pos + length enc <= length buf)%nat).
  { destruct (drop_within _ _ _ H1) as [Hle|Hnil].
    - rewrite length_app in Hle. lia.
    - apply (f_equal (@length byte)) in Hnil. rewrite length_app in Hnil.
      pose proof (encode_length_nonempty (N.of_nat (length data))).
      fold enc in H. simpl in Hnil. lia. }
  unfold read_direct_string, dec_bind.
  rewrite (expect_byte_drop buf ((enc ++ data) ++ rest) pos direct_string_prefix Hdrop).
  unfold enc in H1. rewrite (read_length_drop buf (data ++ rest) (S pos) _ H1). fold enc.
  rewrite (read_chars_drop buf rest data _ Hpos H2).
  unfold data. rewrite string_of_list_byte_of_string.
  f_equal. f_equal. cbn [length]. rewrite length_app. fold data. lia.
Qed.

Lemma read_direct_string_holds (buf : list byte) (pos : nat) (s : string) :
  holds buf pos (direct_encoding s) ->
  read_direct_string buf pos = Ok (s, (pos + length (direct_encoding s))%nat).
Proof.
  intros Hholds. destruct (holds_drop _ _ _ Hholds) as [rest Hdrop].
  apply (read_direct_string_drop buf rest pos s Hdrop).
Qed.

(** ** Writers and decoders, step by step *)

Lemma body_of_emit_bytes (bs : list byte) (out : serializer) :
  (body_start <= length (buffer out))%nat ->
  body_of (emit_bytes bs out) = body_of out ++ bs.
Proof.
  intros Hlen. unfold body_of, emit_bytes. cbn [buffer].
  apply drop_app_le. exact Hlen.
Qed.

Lemma length_body_of (out : serializer) :
  length (body_of out) = (length (buffer out) - body_start)%nat.
Proof. unfold body_of. apply length_drop. Qed.

Lemma table_sound_emit_bytes (bs : list byte) (out : serializer) :
  table_sound out -> table_sound (emit_bytes bs out).
Proof.
  intros [Hlen Htable]. split.
  - unfold emit_bytes. cbn [buffer]. rewrite length_app. lia.
  - intros s pos Hs. rewrite body_of_emit_bytes by exact Hlen.
    destruct (Htable s pos Hs) as [Hpos Hholds].
    split; [exact Hpos | apply holds_app; exact Hholds].
Qed.

Lemma step_emit_bytes {A : Type} (bs : list byte) (d : Dec A) (x : A) (out : serializer) :
  (forall buf pos rest,
      drop pos buf = bs ++ rest -> d buf pos = Ok (x, (pos + length bs)%nat)) ->
  step out (emit_bytes bs out) d x (length bs).
Proof.
  intros Hd Hsound. split; [apply table_sound_emit_bytes; exact Hsound|].
  exists bs. split; [reflexivity|]. split; [lia|].
  intros k. apply (Hd _ _ k). apply drop_app_length.
Qed.

Lemma step_emit (b : byte) (out : serializer) :
  step out (emit b out) read_byte b 1.
Proof.
  apply (step_emit_bytes [b]). intros buf pos rest Hdrop.
  rewrite (read_byte_drop buf rest pos b Hdrop). f_equal. f_equal. simpl. lia.
Qed.

Lemma step_emit_expected (b : byte) (out : serializer) :
  step out (emit b out) (expect_byte b) tt 1.
Proof.
  apply (step_emit_bytes [b]). intros buf pos rest Hdrop.
  rewrite (expect_byte_drop buf rest pos b Hdrop). f_equal. f_equal. simpl. lia.
Qed.

Lemma step_emit_length (n : N) (out : serializer) :
  step out (emit_length n out) read_length n 1.
Proof.
  intros Hsound.
  destruct (step_emit_bytes (encode_length n) read_length n out) as [H1 (bs & H2 & H3 & H4)];
    [|exact Hsound|].
  - intros buf pos rest Hdrop. apply (read_length_drop buf rest pos n Hdrop).
  - split; [exact H1|]. exists bs. split; [exact H2|]. split; [|exact H4].
    apply (f_equal (@length byte)) in H2.
    unfold emit_bytes in H2. cbn [buffer] in H2. rewrite !length_app in H2.
    pose proof (encode_length_nonempty n). lia.
Qed.

Lemma step_ret {A : Type} (x : A) (out : serializer) :
  step out out (dec_ret x) x 0.
Proof.
  intros Hsound. split; [exact Hsound|]. exists []. split; [symmetry; apply app_nil_r|].
  split; [simpl; lia|]. intros k. unfold dec_ret. f_equal. f_equal. simpl. lia.
Qed.

Lemma step_bind {A B : Type} (out out1 out2 : serializer)
    (d : Dec A) (k : A -> Dec B) (x : A) (y : B) (w1 w2 : nat) :
  step out out1 d x w1 ->
  step out1 out2 (k x) y w2 ->
  step out out2 (dec_bind d k) y (w1 + w2).
Proof.
  intros H1 H2 Hsound.
  destruct (H1 Hsound) as [Hsound1 (bs1 & Hbuf1 & Hw1 & Hdec1)].
  destruct (H2 Hsound1) as [Hsound2 (bs2 & Hbuf2 & Hw2 & Hdec2)].
  split; [exact Hsound2|]. exists (bs1 ++ bs2).
  split; [rewrite Hbuf2, Hbuf1, app_assoc; reflexivity|].
  split; [rewrite length_app; lia|].
  intros rest. unfold dec_bind.
  rewrite <- app_assoc. rewrite Hdec1.
  assert (Hbody : body_of out1 = body_of out ++ bs1).
  { unfold body_of. rewrite Hbuf1. apply drop_app_le. apply Hsound. }
  specialize (Hdec2 rest). rewrite Hbody, length_app, <- !app_assoc in Hdec2.
  rewrite Hdec2. f_equal. f_equal. rewrite length_app. lia.
Qed.

Lemma step_weaken {A : Type} (out out' : serializer) (d : Dec A) (x : A) (w w' : nat) :
  step out out' d x w -> (w' <= w)%nat -> step out out' d x w'.
Proof.
  intros H Hle Hsound. destruct (H Hsound) as [Hsound' (bs & Hbuf & Hw & Hdec)].
  split; [exact Hsound'|]. exists bs. split; [exact Hbuf|]. split; [lia|exact Hdec].
Qed.

Lemma step_decoder {A : Type} (out out' : serializer) (d d' : Dec A) (x : A) (w : nat) :
  step out out' d x w -> (forall buf pos, d' buf pos = d buf pos) -> step out out' d' x w.
Proof.
  intros H Heq Hsound. destruct (H Hsound) as [Hsound' (bs & Hbuf & Hw & Hdec)].
  split; [exact Hsound'|]. exists bs. split; [exact Hbuf|]. split; [exact Hw|].
  intros k. rewrite Heq. apply Hdec.
Qed.

Lemma read_string_direct (buf rest : list byte) (pos : nat) (s : string) :
  drop pos buf = direct_encoding s ++ rest ->
  read_string buf pos = Ok (s, (pos + length (direct_encoding s))%nat).
Proof.
  intros Hdrop. unfold read_string.
  assert (Hb : buf !! pos = Some direct_string_prefix).
  { rewrite <- (Nat.add_0_r pos), <- lookup_drop, Hdrop. reflexivity. }
  rewrite Hb. cbn [Byte.eqb direct_string_prefix].
  replace (Byte.eqb direct_string_prefix direct_string_prefix) with true by reflexivity.
  apply (read_direct_string_drop buf rest pos s Hdrop).
Qed.

Lemma read_string_backref (buf rest : list byte) (pos distance : nat) (s : string) :
  drop pos buf = (backref_string_prefix :: encode_length (N.of_nat distance)) ++ rest ->
  (distance <= pos)%nat ->
  holds buf (pos - distance) (direct_encoding s) ->
  read_string buf pos
  = Ok (s, (pos + length (backref_string_prefix :: encode_length (N.of_nat distance)))%nat).
Proof.
  intros Hdrop Hdist Hholds. unfold read_string.
  assert (Hb : buf !! pos = Some backref_string_prefix).
  { rewrite <- (Nat.add_0_r pos), <- lookup_drop, Hdrop. reflexivity. }
  rewrite Hb.
  replace (Byte.eqb backref_string_prefix direct_string_prefix) with false by reflexivity.
  replace (Byte.eqb backref_string_prefix backref_string_prefix) with true by reflexivity.
  assert (H1 : drop (S pos) buf = encode_length (N.of_nat distance) ++ rest).
  { replace (S pos) with (pos + length [backref_string_prefix])%nat by (simpl; lia).
    apply drop_after. rewrite Hdrop. reflexivity. }
  rewrite (read_length_drop buf rest (S pos) _ H1).
  replace (N.of_nat pos <? N.of_nat distance) with false
    by (symmetry; apply N.ltb_ge; lia).
  rewrite Nat2N.id, (read_direct_string_holds buf (pos - distance) s Hholds).
  f_equal. f_equal. simpl. lia.
Qed.

Lemma step_emit_string (s : string) (out : serializer) :
  step out (emit_string s out) read_string s 1.
Proof.
  intros Hsound. unfold emit_string.
  destruct (intern_table out !! s) as [previous|] eqn:Hlookup.
  - pose proof Hsound as [Hlen Htable].
    destruct (Htable s previous Hlookup) as [Hprev Hholds].
    pose proof (holds_bound _ _ _ Hholds) as Hbound.
    rewrite length_body_of in Hbound.
    assert (Henc : (1 <= length (direct_encoding s))%nat) by (simpl; lia).
    set (distance := (length (buffer out) - previous)%nat).
    split.
    + apply table_sound_emit_bytes, table_sound_emit_bytes. exact Hsound.
    + exists (backref_string_prefix :: encode_length (N.of_nat distance)).
      split; [unfold emit_length, emit, emit_bytes; cbn [buffer];
              rewrite <- app_assoc; reflexivity|].
      split; [simpl; lia|].
      intros k. apply (read_string_backref _ k).
      * apply drop_app_length.
      * rewrite length_body_of. unfold distance. lia.
      * apply holds_app.
        replace (length (body_of out) - distance)%nat with (previous - body_start)%nat
          by (rewrite length_body_of; unfold distance; lia).
        exact Hholds.
  - destruct Hsound as [Hlen Htable].
    set (data := list_byte_of_string s).
    assert (Hbuf : buffer (emit_bytes data
                     (emit_length (N.of_nat (length data))
                        (emit direct_string_prefix
                           {| buffer := buffer out;
                              intern_table := <[s:=length (buffer out)]> (intern_table out) |})))
                   = buffer out ++ direct_encoding s).
    { unfold emit_length, emit, emit_bytes, direct_encoding. cbn [buffer].
      fold data. rewrite <- !app_assoc. reflexivity. }
    assert (Hbody : body_of (emit_bytes data
                     (emit_length (N.of_nat (length data))
                        (emit direct_string_prefix
                           {| buffer := buffer out;
                              intern_table := <[s:=length (buffer out)]> (intern_table out) |})))
                   = body_of out ++ direct_encoding s).
    { unfold body_of at 1. rewrite Hbuf. apply drop_app_le. exact Hlen. }
    split; [split|].
    + rewrite Hbuf, length_app. lia.
    + intros s' pos Hs'. rewrite Hbody.
      unfold emit_length, emit, emit_bytes in Hs'. cbn [intern_table] in Hs'.
      destruct (decide (s = s')) as [<-|Hne].
      * rewrite lookup_insert_eq in Hs'. injection Hs' as <-.
        split; [exact Hlen|]. rewrite <- length_body_of.
        rewrite <- (app_nil_r (direct_encoding s)) at 1. apply holds_end.
      * rewrite lookup_insert_ne in Hs' by exact Hne.
        destruct (Htable s' pos Hs') as [Hpos Hholds].
        split; [exact Hpos | apply holds_app; exact Hholds].
    + exists (direct_encoding s). split; [exact Hbuf|]. split; [simpl; lia|].
      intros k. apply (read_string_direct _ k). apply drop_app_length.
Qed.

(** ** Lists, sorts, symbols and patterns *)

Lemma list_sum_elem {A : Type} (w : A -> nat) (x : A) (xs : list A) :
  x ∈ xs -> (w x <= list_sum (map w xs))%nat.
Proof.
  induction 1 as [x xs|x y xs _ IH]; simpl; lia.
Qed.

Lemma step_elements {A : Type} (f : A -> serializer -> serializer) (d : Dec A)
    (w : A -> nat) (xs : list A) :
  (forall x, x ∈ xs -> forall out, step out (f x out) d x (w x)) ->
  forall out,
    step out (fold_left (fun o a => f a o) xs out) (read_n d (length xs)) xs
      (list_sum (map w xs)).
Proof.
  induction xs as [|x xs IH]; intros Hxs out.
  - apply step_ret.
  - cbn [fold_left length read_n map list_sum].
    eapply step_weaken.
    + eapply step_bind; [apply (Hxs x); left|].
      eapply step_bind; [apply IH; intros y Hy; apply Hxs; right; exact Hy|].
      apply step_ret.
    + simpl. lia.
Qed.

Lemma step_list {A : Type} (f : A -> serializer -> serializer) (d : Dec A)
    (w : A -> nat) (xs : list A) :
  (forall x, x ∈ xs -> forall out, step out (f x out) d x (w x)) ->
  forall out,
    step out
      (fold_left (fun o a => f a o) xs (emit_length (N.of_nat (length xs)) out))
      (read_list d) xs (list_sum (map w xs)).
Proof.
  intros Hxs out. unfold read_list.
  eapply step_weaken.
  - eapply step_bind; [apply (step_emit_length (N.of_nat (length xs)))|].
    cbn beta. rewrite Nat2N.id. apply step_elements. exact Hxs.
  - lia.
Qed.

Lemma category_of_code_code (c : SortCategory.t) :
  category_of_code (Byte.to_N (byte_of_N (category_code c))) = Some c.
Proof. destruct c; reflexivity. Qed.

Lemma step_category (c : SortCategory.t) (out : serializer) :
  step out (emit (byte_of_N (category_code c)) out) read_category c 1.
Proof.
  apply (step_emit_bytes [byte_of_N (category_code c)]).
  intros buf pos rest Hdrop. unfold read_category, dec_bind.
  rewrite (read_byte_drop buf rest pos _ Hdrop), category_of_code_code.
  unfold dec_ret. f_equal. f_equal. simpl. lia.
Qed.

Ltac tag_is_not t1 t2 :=
  replace (Byte.eqb t1 t2) with false by reflexivity.
Ltac tag_is t :=
  replace (Byte.eqb t t) with true by reflexivity.

Lemma step_serialize_sort (fuel : nat) (s : KORESort) :
  (sort_size s <= fuel)%nat ->
  forall out, step out (serialize_sort s out) (read_sort fuel) s (sort_size s).
Proof.
  revert s. induction fuel as [|fuel IH]; intros s Hsize out.
  - destruct s; simpl in Hsize; lia.
  - destruct s as [name|name [c b] arguments]; cbn [serialize_sort read_sort sort_size] in *.
    + eapply step_weaken.
      * eapply step_bind; [apply (step_emit sort_variable_tag)|].
        cbn beta. tag_is sort_variable_tag.
        eapply step_bind; [apply (step_emit_string name)|].
        apply step_ret.
      * lia.
    + eapply step_weaken.
      * eapply step_bind; [apply (step_emit composite_sort_tag)|].
        cbn beta. tag_is_not composite_sort_tag sort_variable_tag.
        tag_is composite_sort_tag.
        eapply step_bind; [apply (step_emit_string name)|].
        eapply step_bind; [apply (step_category c)|].
        eapply step_bind; [apply (step_emit_length b)|].
        eapply step_bind.
        { apply (step_list serialize_sort (read_sort fuel) sort_size arguments).
          intros a Ha. apply IH.
          pose proof (list_sum_elem sort_size a arguments Ha). lia. }
        apply step_ret.
      * cbn [cat bits]. lia.
Qed.

Lemma step_serialize_sorts (fuel : nat) (sorts : list KORESort) :
  (list_sum (map sort_size sorts) <= fuel)%nat ->
  forall out,
    step out (serialize_sorts sorts out) (read_list (read_sort fuel)) sorts
      (list_sum (map sort_size sorts)).
Proof.
  intros Hsize out. unfold serialize_sorts. apply step_list.
  intros a Ha. apply step_serialize_sort.
  pose proof (list_sum_elem sort_size a sorts Ha). lia.
Qed.

Lemma step_optional_sort (fuel : nat) (o : option KORESort) (out : serializer) :
  (match o with Some s => sort_size s | None => 0 end <= fuel)%nat ->
  step out
    (match o with
     | None => emit x00 out
     | Some s => serialize_sort s (emit x01 out)
     end)
    (read_optional_sort fuel) o
    (match o with Some s => sort_size s | None => 0 end).
Proof.
  intros Hsize. unfold read_optional_sort. destruct o as [s|].
  - eapply step_weaken.
    + eapply step_bind; [apply (step_emit x01)|].
      cbn beta. tag_is_not x01 x00. tag_is x01.
      eapply step_bind; [apply (step_serialize_sort fuel s Hsize)|].
      apply step_ret.
    + lia.
  - eapply step_weaken.
    + eapply step_bind; [apply (step_emit x00)|].
      cbn beta. tag_is x00. apply step_ret.
    + lia.
Qed.

Lemma step_serialize_symbol (fuel : nat) (sym : KORESymbol) :
  (symbol_size sym <= fuel)%nat ->
  forall out, step out (serialize_symbol sym out) (read_symbol fuel) sym (symbol_size sym).
Proof.
  destruct sym as [name arguments formals sort].
  unfold symbol_size, serialize_symbol, read_symbol.
  cbn [symbol_name symbol_arguments symbol_formal_arguments symbol_sort].
  intros Hsize out.
  eapply step_weaken.
  - eapply step_bind; [apply (step_emit_expected symbol_tag)|].
    eapply step_bind; [apply (step_emit_string name)|].
    eapply step_bind; [apply (step_serialize_sorts fuel arguments); lia|].
    eapply step_bind; [apply (step_serialize_sorts fuel formals); lia|].
    eapply step_bind; [apply (step_optional_sort fuel sort); lia|].
    apply step_ret.
  - lia.
Qed.

Lemma well_formed_arguments (constructor : KORESymbol) (arguments : list KOREPattern) :
  well_formed (KORECompositePattern constructor arguments) = true ->
  length arguments = arity constructor
  /\ forall a, a ∈ arguments -> well_formed a = true.
Proof.
  cbn [well_formed]. intros H. apply andb_true_iff in H as [Hlen Hargs].
  split; [apply Nat.eqb_eq; exact Hlen|].
  intros a Ha. rewrite forallb_forall in Hargs. apply Hargs.
  apply list_elem_of_In. exact Ha.
Qed.

Lemma step_serialize_to (fuel : nat) (p : KOREPattern) :
  (pattern_size p <= fuel)%nat ->
  well_formed p = true ->
  forall out, step out (serialize_to p out) (read_pattern fuel) p (pattern_size p).
Proof.
  revert p. induction fuel as [|fuel IH]; intros p Hsize Hwf out.
  - destruct p; simpl in Hsize; lia.
  - destruct p as [constructor arguments|name sort|contents];
      cbn [serialize_to read_pattern pattern_size] in *.
    + destruct (well_formed_arguments _ _ Hwf) as [Harity Hargs].
      eapply step_weaken.
      * eapply step_bind; [apply (step_emit composite_pattern_tag)|].
        cbn beta. tag_is composite_pattern_tag.
        eapply step_bind; [apply (step_serialize_symbol fuel constructor); lia|].
        eapply step_bind.
        { apply (step_list serialize_to (read_pattern fuel) pattern_size arguments).
          intros a Ha. apply IH; [|apply Hargs; exact Ha].
          pose proof (list_sum_elem pattern_size a arguments Ha). lia. }
        cbn beta. rewrite Harity, Nat.eqb_refl. apply step_ret.
      * lia.
    + eapply step_weaken.
      * eapply step_bind; [apply (step_emit variable_pattern_tag)|].
        cbn beta. tag_is_not variable_pattern_tag composite_pattern_tag.
        tag_is variable_pattern_tag.
        eapply step_bind; [apply (step_emit_string name)|].
        eapply step_bind; [apply (step_serialize_sort fuel sort); lia|].
        apply step_ret.
      * lia.
    + eapply step_weaken.
      * eapply step_bind; [apply (step_emit string_pattern_tag)|].
        cbn beta. tag_is_not string_pattern_tag composite_pattern_tag.
        tag_is_not string_pattern_tag variable_pattern_tag.
        tag_is string_pattern_tag.
        eapply step_bind; [apply (step_emit_string contents)|].
        apply step_ret.
      * lia.
Qed.

(** ** Reading a framed stream from an in-memory source *)

Lemma cursor_read_chunk (pre chunk rest : list byte) :
  cursor_read (N.of_nat (length chunk))
    {| cur_data := pre ++ chunk ++ rest; cur_pos := length pre |}
  = (chunk, {| cur_data := pre ++ chunk ++ rest;
               cur_pos := length pre + length chunk |}).
Proof.
  unfold cursor_read. cbn [cur_data cur_pos].
  rewrite Nat2N.id, drop_app_length, take_app_length. reflexivity.
Qed.

Lemma cursor_read_at (data pre chunk rest : list byte) (n : N) (pos : nat) :
  data = pre ++ chunk ++ rest ->
  pos = length pre ->
  n = N.of_nat (length chunk) ->
  src_read n {| cur_data := data; cur_pos := pos |}
  = (chunk, {| cur_data := data; cur_pos := (pos + length chunk)%nat |}).
Proof.
  intros -> -> ->. apply cursor_read_chunk.
Qed.

Section FramedStream.
Context {magic : MagicHeader} {kllvm : Deserializer}.

(** The reader on an in-memory source that stands before a framed
    pattern: magic header, six bytes of version, eight bytes of size, and
    a body of the length the size field gives.  The body is handed to the
    body decoder and the cursor ends behind it. *)
Lemma read_framed_stream (pre vb sb body rest : list byte) (v : binary_version) :
  length vb = 6%nat ->
  length sb = 8%nat ->
  read_version vb = Ok v ->
  version_ltb v (Version 1 2 0) = false ->
  read_pattern_size_unchecked sb = Ok (N.of_nat (length body)) ->
  body <> [] ->
  read_pattern_from_file
    (py_file_like {| cur_data := pre ++ (magic_header ++ vb ++ sb ++ body) ++ rest;
                     cur_pos := length pre |})
  = (read body v,
     py_file_like {| cur_data := pre ++ (magic_header ++ vb ++ sb ++ body) ++ rest;
                     cur_pos := length pre + length (magic_header ++ vb ++ sb ++ body) |}).
Proof.
  intros Hvb Hsb Hv Hgate Hsize Hbody.
  set (data := pre ++ (magic_header ++ vb ++ sb ++ body) ++ rest).
  pose proof magic_header_size as Hmagic.
  assert (H1 : src_read 5 {| cur_data := data; cur_pos := length pre |}
               = (magic_header, {| cur_data := data; cur_pos := length pre + 5 |})).
  { replace (length pre + 5)%nat with (length pre + length magic_header)%nat by lia.
    apply (cursor_read_at data pre magic_header (vb ++ sb ++ body ++ rest));
      [unfold data; rewrite <- !app_assoc; reflexivity | reflexivity | rewrite Hmagic; reflexivity]. }
  assert (H2 : src_read 6 {| cur_data := data; cur_pos := length pre + 5 |}
               = (vb, {| cur_data := data; cur_pos := length pre + 11 |})).
  { replace (length pre + 11)%nat with (length pre + 5 + length vb)%nat by lia.
    apply (cursor_read_at data (pre ++ magic_header) vb (sb ++ body ++ rest));
      [unfold data; rewrite <- !app_assoc; reflexivity
      | rewrite length_app; lia | rewrite Hvb; reflexivity]. }
  assert (H3 : src_read 8 {| cur_data := data; cur_pos := length pre + 11 |}
               = (sb, {| cur_data := data; cur_pos := length pre + 19 |})).
  { replace (length pre + 19)%nat with (length pre + 11 + length sb)%nat by lia.
    apply (cursor_read_at data (pre ++ magic_header ++ vb) sb (body ++ rest));
      [unfold data; rewrite <- !app_assoc; reflexivity
      | rewrite !length_app; lia | rewrite Hsb; reflexivity]. }
  assert (H4 : src_read (N.of_nat (length body))
                 {| cur_data := data; cur_pos := length pre + 19 |}
               = (body, {| cur_data := data;
                           cur_pos := length pre + length (magic_header ++ vb ++ sb ++ body) |})).
  { replace (length pre + length (magic_header ++ vb ++ sb ++ body))%nat
      with (length pre + 19 + length body)%nat by (rewrite !length_app; lia).
    apply (cursor_read_at data (pre ++ magic_header ++ vb ++ sb) body rest);
      [unfold data; rewrite <- !app_assoc; reflexivity
      | rewrite !length_app; lia | reflexivity]. }
  unfold read_pattern_from_file, hasattr_read. cbn [negb].
  rewrite (reader_gate_passed _ _ _ magic_header vb v H1 (std_equal_refl _) H2 Hv Hgate).
  assert (Hnz : N.of_nat (length body) <> 0)
    by (destruct body; [congruence | simpl; lia]).
  rewrite (reader_body _ _ _ sb body v _ H3 Hsize Hnz H4). reflexivity.
Qed.

End FramedStream.

(** ** The framing written and read back *)

Lemma length_version_bytes (v : binary_version) : length (version_bytes v) = 6%nat.
Proof. unfold version_bytes. rewrite !length_app, !length_to_bytes. reflexivity. Qed.

Lemma decode_version_bytes (v : binary_version) :
  v_major v < 65536 /\ v_minor v < 65536 /\ v_patch v < 65536 ->
  decode_version (version_bytes v) = Ok v.
Proof.
  intros (Hmajor & Hminor & Hpatch). unfold decode_version.
  rewrite length_version_bytes. cbn [Nat.ltb Nat.leb]. unfold version_bytes.
  replace (take 2 (to_bytes 2 (v_major v) ++ to_bytes 2 (v_minor v) ++ to_bytes 2 (v_patch v)))
    with (to_bytes 2 (v_major v)) by reflexivity.
  replace (take 2 (drop 2 (to_bytes 2 (v_major v) ++ to_bytes 2 (v_minor v) ++ to_bytes 2 (v_patch v))))
    with (to_bytes 2 (v_minor v)) by reflexivity.
  replace (take 2 (drop 4 (to_bytes 2 (v_major v) ++ to_bytes 2 (v_minor v) ++ to_bytes 2 (v_patch v))))
    with (to_bytes 2 (v_patch v)) by reflexivity.
  rewrite !from_bytes_to_bytes_small by assumption.
  destruct v; reflexivity.
Qed.

Lemma decode_pattern_size_bytes (n : N) :
  n < 2 ^ 64 -> decode_pattern_size (to_bytes 8 n) = Ok n.
Proof.
  intros Hn. unfold decode_pattern_size.
  rewrite length_to_bytes. cbn [Nat.ltb Nat.leb].
  rewrite firstn_all2 by (rewrite length_to_bytes; lia).
  rewrite from_bytes_to_bytes_small; [reflexivity|exact Hn].
Qed.

Section RoundTrip.
Context {magic : MagicHeader} {format : Format}.

Lemma length_new_serializer : length (buffer new_serializer) = body_start.
Proof.
  unfold new_serializer. cbn [buffer].
  rewrite !length_app, magic_header_size, length_version_bytes, length_to_bytes.
  reflexivity.
Qed.

Lemma new_serializer_sound : table_sound new_serializer.
Proof.
  split.
  - rewrite length_new_serializer. lia.
  - intros s pos Hs. unfold new_serializer in Hs. cbn [intern_table] in Hs.
    rewrite lookup_empty in Hs. discriminate.
Qed.

Lemma body_of_new_serializer : body_of new_serializer = [].
Proof.
  unfold body_of. apply drop_ge. rewrite length_new_serializer. lia.
Qed.

(** What [serialize_to] appends to a new serializer is a body that
    [detail::read], as modelled, decodes to the pattern. *)
Lemma serialized_body (p : KOREPattern) (v : binary_version) :
  well_formed p = true ->
  exists body,
    buffer (serialize_to p new_serializer) = buffer new_serializer ++ body
    /\ body <> []
    /\ decode_body body v = Ok p.
Proof.
  intros Hwf.
  destruct (step_serialize_to (pattern_size p) p (le_n _) Hwf new_serializer
              new_serializer_sound) as [_ (body & Hbuf & Hsize & _)].
  assert (Hfuel : (pattern_size p <= S (length body))%nat) by lia.
  destruct (step_serialize_to (S (length body)) p Hfuel Hwf new_serializer
              new_serializer_sound) as [_ (body' & Hbuf' & _ & Hdec)].
  assert (body' = body) as -> by (apply (app_inv_head (buffer new_serializer)); congruence).
  exists body. split; [exact Hbuf|]. split.
  - intros ->. destruct p; simpl in Hsize; lia.
  - specialize (Hdec []). rewrite body_of_new_serializer, app_nil_r in Hdec.
    cbn [app length Nat.add] in Hdec.
    unfold decode_body. rewrite Hdec, Nat.eqb_refl. reflexivity.
Qed.

(** The bytes of [serialize] with the size emitted: magic header, version,
    the length of the body on eight bytes, the body. *)
Lemma serialize_framed (p : KOREPattern) (body : list byte) :
  buffer (serialize_to p new_serializer) = buffer new_serializer ++ body ->
  serialize p true
  = magic_header ++ version_bytes format_version
    ++ to_bytes 8 (N.of_nat (length body)) ++ body.
Proof.
  intros Hbuf. unfold serialize, byte_string, correct_emitted_size. cbn [buffer].
  rewrite Hbuf. rewrite length_app, length_new_serializer.
  replace (body_start + length body - body_start)%nat with (length body) by lia.
  rewrite <- length_new_serializer at 1. rewrite drop_app_length.
  unfold new_serializer. cbn [buffer].
  replace ((magic_header ++ version_bytes format_version ++ to_bytes 8 0) ++ body)
    with ((magic_header ++ version_bytes format_version) ++ to_bytes 8 0 ++ body)
    by (rewrite <- !app_assoc; reflexivity).
  rewrite take_app_length'
    by (rewrite length_app, magic_header_size, length_version_bytes; reflexivity).
  rewrite <- !app_assoc. reflexivity.
Qed.

(** The whole-buffer deserializer on a framed buffer of the version the
    serializer writes: the body is handed to the body decoder. *)
Lemma deserialize_framed (body : list byte) (should_strip : bool) :
  body <> [] ->
  N.of_nat (length body) < 2 ^ 64 ->
  deserialize_pattern
    (magic_header ++ version_bytes format_version
     ++ to_bytes 8 (N.of_nat (length body)) ++ body) should_strip
  = match decode_body body format_version with
    | Ok p => Ok (if should_strip then raw_term_stripped p else p)
    | Err e => Err e
    end.
Proof.
  intros Hbody Hsize. unfold deserialize_pattern.
  set (vb := version_bytes format_version).
  set (sb := to_bytes 8 (N.of_nat (length body))).
  assert (Hvb : length vb = 6%nat) by apply length_version_bytes.
  assert (Hsb : length sb = 8%nat) by apply length_to_bytes.
  pose proof magic_header_size as Hmagic.
  assert (H1 : take 5 (magic_header ++ vb ++ sb ++ body) = magic_header).
  { apply take_app_length'. symmetry. exact Hmagic. }
  assert (H2 : take 6 (drop 5 (magic_header ++ vb ++ sb ++ body)) = vb).
  { rewrite drop_app_length' by (symmetry; exact Hmagic).
    apply take_app_length'. symmetry. exact Hvb. }
  assert (H3 : take 8 (drop header_prefix_length (magic_header ++ vb ++ sb ++ body)) = sb).
  { rewrite (app_assoc magic_header vb), drop_app_length'
      by (rewrite length_app; unfold header_prefix_length; lia).
    apply take_app_length'. symmetry. exact Hsb. }
  assert (H4 : drop body_start (magic_header ++ vb ++ sb ++ body) = body).
  { rewrite (app_assoc vb sb), (app_assoc magic_header).
    apply drop_app_length'. rewrite !length_app. unfold body_start. lia. }
  rewrite H1, bool_decide_eq_true_2 by reflexivity. cbn [negb].
  rewrite H2. unfold vb at 1. rewrite decode_version_bytes by apply format_version_fits.
  rewrite supported_version_current. cbn [negb].
  rewrite format_version_sized, H3. unfold sb at 1.
  rewrite decode_pattern_size_bytes by exact Hsize.
  replace (N.of_nat (length body) =? 0) with false
    by (symmetry; apply N.eqb_neq; destruct body; [congruence | simpl; lia]).
  rewrite H4, N.ltb_irrefl, Nat2N.id, firstn_all. reflexivity.
Qed.

End RoundTrip.

(** ** What the decoder returns satisfies the arity invariant *)

Lemma read_n_all {A : Type} (P : A -> Prop) (d : Dec A) :
  (forall buf pos x pos', d buf pos = Ok (x, pos') -> P x) ->
  forall n buf pos xs pos', read_n d n buf pos = Ok (xs, pos') -> Forall P xs.
Proof.
  intros Hd. induction n as [|n IH]; intros buf pos xs pos' Hread.
  - injection Hread as <- _. constructor.
  - cbn [read_n] in Hread. unfold dec_bind at 1 in Hread.
    destruct (d buf pos) as [[x pos1]|e] eqn:Hx; [|discriminate].
    unfold dec_bind at 1 in Hread.
    destruct (read_n d n buf pos1) as [[xs' pos2]|e] eqn:Hxs; [|discriminate].
    injection Hread as <- _. constructor; [exact (Hd _ _ _ _ Hx)|exact (IH _ _ _ _ Hxs)].
Qed.

Lemma read_list_all {A : Type} (P : A -> Prop) (d : Dec A) :
  (forall buf pos x pos', d buf pos = Ok (x, pos') -> P x) ->
  forall buf pos xs pos', read_list d buf pos = Ok (xs, pos') -> Forall P xs.
Proof.
  intros Hd buf pos xs pos' Hread. unfold read_list, dec_bind in Hread.
  destruct (read_length buf pos) as [[n pos1]|e]; [|discriminate].
  exact (read_n_all P d Hd _ _ _ _ _ Hread).
Qed.

Lemma read_pattern_well_formed (fuel : nat) (buf : list byte) (pos pos' : nat)
    (p : KOREPattern) :
  read_pattern fuel buf pos = Ok (p, pos') -> well_formed p = true.
Proof.
  revert buf pos pos' p. induction fuel as [|fuel IH]; intros buf pos pos' p Hread;
    [discriminate|].
  cbn [read_pattern] in Hread. unfold dec_bind at 1 in Hread.
  destruct (read_byte buf pos) as [[tag pos1]|e]; [|discriminate].
  destruct (Byte.eqb tag composite_pattern_tag).
  - unfold dec_bind at 1 in Hread.
    destruct (read_symbol fuel buf pos1) as [[c pos2]|e]; [|discriminate].
    unfold dec_bind at 1 in Hread.
    destruct (read_list (read_pattern fuel) buf pos2) as [[args pos3]|e] eqn:Hargs;
      [|discriminate].
    destruct (length args =? arity c)%nat eqn:Harity; [|discriminate].
    injection Hread as <- _. cbn [well_formed]. rewrite Harity. cbn [andb].
    apply forallb_forall. intros a Ha.
    pose proof (read_list_all (fun q => well_formed q = true) (read_pattern fuel)
                  (fun b q x q' H => IH b q q' x H) _ _ _ _ Hargs) as Hall.
    rewrite Forall_forall in Hall. apply Hall. apply list_elem_of_In. exact Ha.
  - destruct (Byte.eqb tag variable_pattern_tag).
    + unfold dec_bind at 1 in Hread.
      destruct (read_string buf pos1) as [[name pos2]|e]; [|discriminate].
      unfold dec_bind at 1 in Hread.
      destruct (read_sort fuel buf pos2) as [[sort pos3]|e]; [|discriminate].
      injection Hread as <- _. reflexivity.
    + destruct (Byte.eqb tag string_pattern_tag); [|discriminate].
      unfold dec_bind at 1 in Hread.
      destruct (read_string buf pos1) as [[contents pos2]|e]; [|discriminate].
      injection Hread as <- _. reflexivity.
Qed.

(** Whatever the body decoder returns satisfies the arity invariant: the
    round trip can hold of no other pattern. *)
Lemma decode_body_well_formed (bytes : list byte) (v : binary_version) (p : KOREPattern) :
  decode_body bytes v = Ok p -> well_formed p = true.
Proof.
  unfold decode_body. intros Hdec.
  destruct (read_pattern (S (length bytes)) bytes 0%nat) as [[q pos]|e] eqn:Hread;
    [|discriminate].
  destruct (pos =? length bytes)%nat; [|discriminate].
  injection Hdec as <-. exact (read_pattern_well_formed _ _ _ _ _ Hread).
Qed.

Section RoundTripClaims.
Context {magic : MagicHeader} {format : Format}.

Lemma serialize_decodes (p : KOREPattern) :
  well_formed p = true ->
  N.of_nat (length (serialize p true)) < 2 ^ 64 ->
  exists body,
    serialize p true
    = magic_header ++ version_bytes format_version
      ++ to_bytes 8 (N.of_nat (length body)) ++ body
    /\ body <> []
    /\ N.of_nat (length body) < 2 ^ 64
    /\ decode_body body format_version = Ok p.
Proof.
  intros Hwf Hfits.
  destruct (serialized_body p format_version Hwf) as (body & Hbuf & Hne & Hdec).
  pose proof (serialize_framed p body Hbuf) as Hshape.
  exists body. split; [exact Hshape|]. split; [exact Hne|]. split; [|exact Hdec].
  rewrite Hshape, !length_app in Hfits. lia.
Qed.

(** C1.  For every pattern that satisfies the arity invariant of the data
    model and whose serialization fits a 64-bit size, deserializing
    [serialize(p, emit_size=true)] gives back [p]: with
    [strip_raw_term=false] always, and with [strip_raw_term=true] when
    stripping leaves [p] as it is. *)
Theorem deserialize_serialize_round_trip (p : KOREPattern) (strip_raw_term : bool) :
  well_formed p = true ->
  N.of_nat (length (serialize p true)) < 2 ^ 64 ->
  (strip_raw_term = true -> raw_term_stripped p = p) ->
  deserialize (serialize p true) strip_raw_term = Ok p.
Proof.
  intros Hwf Hfits Hstrip.
  destruct (serialize_decodes p Hwf Hfits) as (body & -> & Hne & Hsize & Hdec).
  unfold deserialize. rewrite (deserialize_framed body strip_raw_term Hne Hsize), Hdec.
  destruct strip_raw_term; [rewrite Hstrip|]; reflexivity.
Qed.

(** C2.  On an in-memory source that stands before the bytes of
    [serialize(p, emit_size=true)], [read_from] returns what [deserialize]
    returns on these bytes, which is [p], and leaves the cursor right
    behind them, whatever precedes and whatever follows them in the
    source.  The reader never strips: the two agree with
    [strip_raw_term=false] always, and with [strip_raw_term=true] when
    stripping leaves [p] as it is. *)
Theorem read_from_agrees_with_deserialize
    (p : KOREPattern) (pre rest : list byte) (strip_raw_term : bool) :
  well_formed p = true ->
  N.of_nat (length (serialize p true)) < 2 ^ 64 ->
  (strip_raw_term = true -> raw_term_stripped p = p) ->
  read_pattern_from_file (kllvm := modelled_deserializer)
    (py_file_like {| cur_data := pre ++ serialize p true ++ rest;
                     cur_pos := length pre |})
  = (deserialize (serialize p true) strip_raw_term,
     py_file_like {| cur_data := pre ++ serialize p true ++ rest;
                     cur_pos := length pre + length (serialize p true) |})
  /\ deserialize (serialize p true) strip_raw_term = Ok p.
Proof.
  intros Hwf Hfits Hstrip.
  assert (Hround : deserialize (serialize p true) strip_raw_term = Ok p).
  { destruct (serialize_decodes p Hwf Hfits) as (body & -> & Hne & Hsize & Hdec).
    unfold deserialize. rewrite (deserialize_framed body strip_raw_term Hne Hsize), Hdec.
    destruct strip_raw_term; [rewrite Hstrip|]; reflexivity. }
  split; [|exact Hround]. rewrite Hround.
  destruct (serialize_decodes p Hwf Hfits) as (body & -> & Hne & Hsize & Hdec).
  rewrite (read_framed_stream (kllvm := modelled_deserializer)
             pre (version_bytes format_version)
             (to_bytes 8 (N.of_nat (length body))) body rest format_version).
  - cbn [read modelled_deserializer]. rewrite Hdec. reflexivity.
  - apply length_version_bytes.
  - apply length_to_bytes.
  - cbn [read_version modelled_deserializer].
    apply decode_version_bytes, format_version_fits.
  - apply format_version_sized.
  - cbn [read_pattern_size_unchecked modelled_deserializer].
    apply decode_pattern_size_bytes. exact Hsize.
  - exact Hne.
Qed.

End RoundTripClaims.

(** C1 on the sample pattern, with and without stripping. *)
Lemma deserialize_serialize_round_trip_witness :
  deserialize (magic := sample_magic) (format := sample_format)
    (serialize (magic := sample_magic) (format := sample_format) sample_pattern true) true
  = Ok sample_pattern
  /\ deserialize (magic := sample_magic) (format := sample_format)
    (serialize (magic := sample_magic) (format := sample_format) sample_pattern true) false
  = Ok sample_pattern.
Proof.
  split.
  - apply (deserialize_serialize_round_trip
             (magic := sample_magic) (format := sample_format) sample_pattern true).
    + reflexivity.
    + vm_compute. reflexivity.
    + reflexivity.
  - apply (deserialize_serialize_round_trip
             (magic := sample_magic) (format := sample_format) sample_pattern false).
    + reflexivity.
    + vm_compute. reflexivity.
    + discriminate.
Defined.

(** C2 on [two_patterns]: the first read returns the sample pattern and
    leaves the cursor at 74, where the second framed pattern starts; the
    second read, from there, returns the second pattern and leaves the
    cursor at the end, 103. *)
Lemma read_from_agrees_with_deserialize_witness :
  read_pattern_from_file (magic := sample_magic) (kllvm := modelled_deserializer)
    (py_file_like {| cur_data := two_patterns; cur_pos := 0 |})
  = (Ok sample_pattern, py_file_like {| cur_data := two_patterns; cur_pos := 74 |})
  /\ read_pattern_from_file (magic := sample_magic) (kllvm := modelled_deserializer)
    (py_file_like {| cur_data := two_patterns; cur_pos := 74 |})
  = (Ok (KOREStringPattern "SortInt"),
     py_file_like {| cur_data := two_patterns; cur_pos := 103 |}).
Proof.
  split.
  - refine (eq_trans _ (eq_trans (proj1 (read_from_agrees_with_deserialize
               (magic := sample_magic) (format := sample_format)
               sample_pattern []
               (serialize (magic := sample_magic) (format := sample_format)
                  (KOREStringPattern "SortInt") true)
               false _ _ _)) _)).
    + reflexivity.
    + reflexivity.
    + vm_compute. reflexivity.
    + discriminate.
    + vm_compute. reflexivity.
  - refine (eq_trans _ (eq_trans (proj1 (read_from_agrees_with_deserialize
               (magic := sample_magic) (format := sample_format)
               (KOREStringPattern "SortInt")
               (serialize (magic := sample_magic) (format := sample_format)
                  sample_pattern true)
               [] false _ _ _)) _)).
    + vm_compute. reflexivity.
    + reflexivity.
    + vm_compute. reflexivity.
    + discriminate.
    + vm_compute. reflexivity.
Defined.

(* ===================================================================== *)
(** * Part XI.  Pattern objects: serialization *)
(* ===================================================================== *)

(** ** Serializing an object is serializing its snapshot *)

Lemma serialize_objects_to (f : nat) (h : gmap address pattern_object)
    (args : list address) (trees : list KOREPattern) :
  Forall2 (fun x y => forall out,
             serialize_object_to f h x out = Some (serialize_to y out)) args trees ->
  forall out,
    fold_left
      (fun acc arg =>
         match acc with
         | Some o => serialize_object_to f h arg o
         | None => None
         end)
      args (Some out)
    = Some (fold_left (fun o p => serialize_to p o) trees out).
Proof.
  induction 1 as [|x y args trees Hxy _ IH]; intros out.
  - reflexivity.
  - cbn [fold_left]. rewrite Hxy. apply IH.
Qed.

Lemma serialize_object_to_snapshot (f : nat) (h : gmap address pattern_object)
    (a : address) (p : KOREPattern) :
  snapshot f h a = Some p ->
  forall out, serialize_object_to f h a out = Some (serialize_to p out).
Proof.
  revert a p. induction f as [|f IH]; intros a p Hsnap out; [discriminate|].
  cbn [snapshot serialize_object_to] in *.
  destruct (h !! a) as [[c args|name sort|contents]|]; try discriminate.
  - destruct (mapM (snapshot f h) args) as [trees|] eqn:Hargs; [|discriminate].
    injection Hsnap as <-. apply mapM_Some in Hargs.
    rewrite (Forall2_length _ _ _ Hargs).
    cbn [serialize_to]. apply serialize_objects_to.
    eapply Forall2_impl; [exact Hargs|]. intros x y Hx. apply IH. exact Hx.
  - injection Hsnap as <-. reflexivity.
  - injection Hsnap as <-. reflexivity.
Qed.

Section Determinism.
Context {magic : MagicHeader} {format : Format}.

(** C7.  The bytes [serialize] produces for a handle are those of the tree
    the handle stands for: two handles with the same snapshot, in
    whatever stores and however their objects were allocated, filled and
    shared, serialize to the same bytes, with and without the size. *)
Theorem serialize_is_a_function_of_the_tree
    (f1 f2 : nat) (h1 h2 : gmap address pattern_object) (a1 a2 : address)
    (p : KOREPattern) (emit_size : bool) :
  snapshot f1 h1 a1 = Some p ->
  snapshot f2 h2 a2 = Some p ->
  serialize_object f1 h1 a1 emit_size = Some (serialize p emit_size)
  /\ serialize_object f2 h2 a2 emit_size = serialize_object f1 h1 a1 emit_size.
Proof.
  intros H1 H2. unfold serialize_object, serialize.
  rewrite (serialize_object_to_snapshot f1 h1 a1 p H1).
  rewrite (serialize_object_to_snapshot f2 h2 a2 p H2).
  split; reflexivity.
Qed.

End Determinism.

(** C7 on the two constructions: the handles differ, the bytes do not. *)
Lemma serialize_is_a_function_of_the_tree_witness :
  fst built_top_down <> fst built_bottom_up
  /\ serialize_object (magic := sample_magic) (format := sample_format)
       3 (snd built_top_down) (fst built_top_down) true
     = Some (serialize (magic := sample_magic) (format := sample_format) sample_pattern true)
  /\ serialize_object (magic := sample_magic) (format := sample_format)
       3 (snd built_bottom_up) (fst built_bottom_up) true
     = serialize_object (magic := sample_magic) (format := sample_format)
         3 (snd built_top_down) (fst built_top_down) true.
Proof.
  split; [vm_compute; discriminate|].
  apply (serialize_is_a_function_of_the_tree
           (magic := sample_magic) (format := sample_format)
           3 3 (snd built_top_down) (snd built_bottom_up)
           (fst built_top_down) (fst built_bottom_up) sample_pattern true);
    vm_compute; reflexivity.
Defined.

(* ===================================================================== *)
(** * Part XII.  The streaming reader: stages, end of file, in-memory
      streams *)
(* ===================================================================== *)

(** ** What is asked of the source, and when the reader stops *)

Section ReadingInStages.
Context {S : Type} {source : ByteSource S} {magic : MagicHeader} {kllvm : Deserializer}.

(** A read on a journaled source is the read on the source beneath, with
    one more line in the journal. *)
Lemma journaled_read_run (n : N) (s s' : S) (bytes : list byte) (j0 : list (N * nat)) :
  src_read n s = (bytes, s') ->
  src_read n {| inner := s; journal := j0 |}
  = (bytes, {| inner := s'; journal := j0 ++ [(n, length bytes)] |}).
Proof.
  intros Hread. cbn [src_read journaled_source]. unfold journaled_read.
  cbn [inner journal]. rewrite Hread. reflexivity.
Qed.

Ltac unfold_reader :=
  unfold read_pattern_from_file, hasattr_read; cbn [negb];
  unfold read_framed_pattern, read_sized_pattern, reader_bind, read_len, lift, throw.

Ltac read_next n s bytes s' H :=
  destruct (src_read n s) as [bytes s'] eqn:H;
  rewrite (journaled_read_run n s s' bytes _ H).

(** The journal of a run that went past the header check is longer than
    one read. *)
Ltac went_on Hlen :=
  let Hrun := fresh "Hrun" in
  intros Hrun; apply Hlen in Hrun; cbn [journal] in Hrun;
  rewrite !length_app in Hrun; simpl in Hrun; lia.

(** X1.  What [read_from] asks of its source, told by the journal: 5
    bytes, then 6, then 8, then [size], in that order and each once, and
    nothing after the first stage that fails.  With what each read
    returned given: a header the comparison refuses ends the run after
    one read; a version that cannot be read or is below 1.2.0, after two;
    a size that cannot be read or is zero, after three; otherwise the body
    is asked for in one call, with the size decoded from the bytes of the
    third read, and its bytes go to the body decoder under the version
    decoded from the bytes of the second.  The first read is taken to
    return at most five bytes, beyond which line 85 reads past the
    constant. *)
Theorem read_from_reads_in_stages
    (s s1 : S) (header : list byte) (j0 : list (N * nat)) :
  src_read 5 s = (header, s1) ->
  (length header <= 5)%nat ->
  (std_equal header magic_header = false ->
     read_pattern_from_file (py_file_like {| inner := s; journal := j0 |})
     = (Err (invalid_argument bad_header_message),
        py_file_like {| inner := s1; journal := j0 ++ [(5, length header)] |}))
  /\ (std_equal header magic_header = true ->
      forall (vb : list byte) (s2 : S),
        src_read 6 s1 = (vb, s2) ->
        (forall e : exception,
            read_version vb = Err e ->
            read_pattern_from_file (py_file_like {| inner := s; journal := j0 |})
            = (Err e,
               py_file_like
                 {| inner := s2;
                    journal := j0 ++ [(5, length header); (6, length vb)] |}))
        /\ (forall v : binary_version,
            read_version vb = Ok v ->
            (version_ltb v (Version 1 2 0) = true ->
               read_pattern_from_file (py_file_like {| inner := s; journal := j0 |})
               = (Err (invalid_argument old_version_message),
                  py_file_like
                    {| inner := s2;
                       journal := j0 ++ [(5, length header); (6, length vb)] |}))
            /\ (version_ltb v (Version 1 2 0) = false ->
                forall (sb : list byte) (s3 : S),
                  src_read 8 s2 = (sb, s3) ->
                  (forall e : exception,
                      read_pattern_size_unchecked sb = Err e ->
                      read_pattern_from_file (py_file_like {| inner := s; journal := j0 |})
                      = (Err e,
                         py_file_like
                           {| inner := s3;
                              journal := j0 ++ [(5, length header); (6, length vb);
                                                (8, length sb)] |}))
                  /\ (read_pattern_size_unchecked sb = Ok 0 ->
                      read_pattern_from_file (py_file_like {| inner := s; journal := j0 |})
                      = (Err (invalid_argument missing_size_message),
                         py_file_like
                           {| inner := s3;
                              journal := j0 ++ [(5, length header); (6, length vb);
                                                (8, length sb)] |}))
                  /\ (forall size : N,
                      read_pattern_size_unchecked sb = Ok size ->
                      size <> 0 ->
                      forall (body : list byte) (s4 : S),
                        src_read size s3 = (body, s4) ->
                        read_pattern_from_file
                          (py_file_like {| inner := s; journal := j0 |})
                        = (read body v,
                           py_file_like
                             {| inner := s4;
                                journal := j0 ++ [(5, length header); (6, length vb);
                                                  (8, length sb);
                                                  (size, length body)] |}))))).
Proof.
  intros Hread _.
  pose proof (journaled_read_run 5 s s1 header j0 Hread) as J1.
  split.
  - intros Hneq. unfold read_pattern_from_file, hasattr_read. cbn [negb].
    rewrite (reader_bad_header _ _ header J1 Hneq). reflexivity.
  - intros Heq vb s2 Hread2.
    pose proof (journaled_read_run 6 s1 s2 vb (j0 ++ [(5, length header)]) Hread2) as J2.
    rewrite <- app_assoc in J2. cbn [app] in J2.
    split.
    + intros e Hv. unfold read_pattern_from_file, hasattr_read. cbn [negb].
      rewrite (reader_version_failure _ _ _ header vb e J1 Heq J2 Hv). reflexivity.
    + intros v Hv. split.
      * intros Hgate. unfold read_pattern_from_file, hasattr_read. cbn [negb].
        rewrite (reader_old_version _ _ _ header vb v J1 Heq J2 Hv Hgate). reflexivity.
      * intros Hgate sb s3 Hread3.
        pose proof (journaled_read_run 8 s2 s3 sb
                      (j0 ++ [(5, length header); (6, length vb)]) Hread3) as J3.
        rewrite <- app_assoc in J3. cbn [app] in J3.
        assert (Hrun : read_pattern_from_file
                         (py_file_like {| inner := s; journal := j0 |})
                       = (let '(r, s') :=
                            read_sized_pattern v
                              {| inner := s2;
                                 journal := j0 ++ [(5, length header); (6, length vb)] |}
                          in (r, py_file_like s'))).
        { unfold read_pattern_from_file, hasattr_read. cbn [negb].
          rewrite (reader_gate_passed _ _ _ header vb v J1 Heq J2 Hv Hgate).
          reflexivity. }
        rewrite Hrun. split; [|split].
        -- intros e Hsize. rewrite (reader_size_failure _ _ sb v e J3 Hsize).
           reflexivity.
        -- intros Hsize. rewrite (reader_zero_size _ _ sb v J3 Hsize). reflexivity.
        -- intros size Hsize Hnz body s4 Hread4.
           pose proof (journaled_read_run size s3 s4 body
                         (j0 ++ [(5, length header); (6, length vb); (8, length sb)])
                         Hread4) as J4.
           rewrite <- app_assoc in J4. cbn [app] in J4.
           rewrite (reader_body _ _ _ sb body v size J3 Hsize Hnz J4). reflexivity.
Qed.

(** X2.  A pattern that [read_from] returns was decoded by the body
    decoder from the bytes of the fourth read, under the version read from
    the stream: the header read was a prefix of the magic constant, the
    version is not below 1.2.0, the size is not zero and is the length
    asked of the fourth read, and the source is left as that read left
    it.  As in X1, the first read is taken to return at most five bytes. *)
Theorem read_from_success_comes_from_a_frame (s : S) (p : KOREPattern) (o : py_object S) :
  (length (fst (src_read 5 s)) <= 5)%nat ->
  read_pattern_from_file (py_file_like s) = (Ok p, o) ->
  exists (s1 s2 s3 s4 : S) (header vb sb body : list byte)
         (v : binary_version) (size : N),
    src_read 5 s = (header, s1)
    /\ header = take (length header) magic_header
    /\ src_read 6 s1 = (vb, s2)
    /\ read_version vb = Ok v
    /\ version_ltb v (Version 1 2 0) = false
    /\ src_read 8 s2 = (sb, s3)
    /\ read_pattern_size_unchecked sb = Ok size
    /\ size <> 0
    /\ src_read size s3 = (body, s4)
    /\ read body v = Ok p
    /\ o = py_file_like s4.
Proof.
  intros _. unfold_reader.
  destruct (src_read 5 s) as [header s1] eqn:H1.
  destruct (std_equal header magic_header) eqn:Heq; cbn [negb]; [|discriminate].
  destruct (src_read 6 s1) as [vb s2] eqn:H2.
  destruct (read_version vb) as [v|e] eqn:Hv; [|discriminate].
  destruct (version_ltb v (Version 1 2 0)) eqn:Hgate; [discriminate|].
  destruct (src_read 8 s2) as [sb s3] eqn:H3.
  destruct (read_pattern_size_unchecked sb) as [size|e] eqn:Hs; [|discriminate].
  destruct (size =? 0) eqn:Hz; [discriminate|].
  destruct (src_read size s3) as [body s4] eqn:H4.
  intros [= Hr <-].
  exists s1, s2, s3, s4, header, vb, sb, body, v, size.
  apply std_equal_prefix in Heq. apply N.eqb_neq in Hz.
  repeat split; auto.
Qed.

(** X3.  The header check of line 85 lets every prefix of the magic
    constant through, the empty one included: when the first read returns
    at most five bytes, [read_from] stops there with the bad-header
    failure exactly when those bytes are not a prefix of the constant.
    Stopping there is told by the journal, which then holds that one read
    and no other. *)
Theorem header_check_passes_prefixes
    (s s1 : S) (header : list byte) (j0 : list (N * nat)) :
  src_read 5 s = (header, s1) ->
  (length header <= 5)%nat ->
  header <> take (length header) magic_header
  <-> read_pattern_from_file (py_file_like {| inner := s; journal := j0 |})
      = (Err (invalid_argument bad_header_message),
         py_file_like {| inner := s1; journal := j0 ++ [(5, length header)] |}).
Proof.
  intros H1 _. unfold_reader.
  rewrite (journaled_read_run 5 s s1 header j0 H1).
  destruct (std_equal header magic_header) eqn:Heq; cbn [negb].
  - apply std_equal_prefix in Heq. split; [intros Hneq; contradiction|].
    intros Hrun. exfalso.
    assert (Hlen : forall (r : result KOREPattern) (j : journaled S),
               (let '(r', s') := (r, j) in (r', py_file_like s'))
               = (Err (invalid_argument bad_header_message),
                  py_file_like {| inner := s1; journal := j0 ++ [(5, length header)] |}) ->
               length (journal j) = (length j0 + 1)%nat).
    { intros r j [= _ ->]. cbn [journal]. rewrite length_app. simpl. lia. }
    revert Hrun.
    read_next 6 s1 vb s2 H2.
    destruct (read_version vb) as [v|e]; [|went_on Hlen].
    destruct (version_ltb v (Version 1 2 0)); [went_on Hlen|].
    read_next 8 s2 sb s3 H3.
    destruct (read_pattern_size_unchecked sb) as [size|e]; [|went_on Hlen].
    destruct (size =? 0); [went_on Hlen|].
    read_next size s3 body s4 H4.
    went_on Hlen.
  - split; [reflexivity|]. intros _ Hpre.
    apply std_equal_prefix in Hpre. congruence.
Qed.

(** X4.  On a source at its end, where every read returns no byte,
    [read_from] does not fail at the header check: the outcome is that of
    the kllvm functions on empty input (the failure of [read_version] on
    no byte, if it fails), and the source is left as it was. *)
Theorem read_from_at_end_of_file (s : S) :
  (forall n : N, src_read n s = ([], s)) ->
  read_pattern_from_file (py_file_like s)
  = (match read_version [] with
     | Err e => Err e
     | Ok v =>
         if version_ltb v (Version 1 2 0)
         then Err (invalid_argument old_version_message)
         else match read_pattern_size_unchecked [] with
              | Err e => Err e
              | Ok size =>
                  if size =? 0
                  then Err (invalid_argument missing_size_message)
                  else read [] v
              end
     end, py_file_like s).
Proof.
  intros Heof. unfold_reader.
  rewrite (Heof 5). cbn [std_equal negb]. rewrite (Heof 6).
  destruct (read_version []) as [v|e]; [|reflexivity].
  destruct (version_ltb v (Version 1 2 0)); [reflexivity|].
  rewrite (Heof 8).
  destruct (read_pattern_size_unchecked []) as [size|e]; [|reflexivity].
  destruct (size =? 0); [reflexivity|].
  rewrite (Heof size). reflexivity.
Qed.

End ReadingInStages.

(** ** In-memory streams *)

Section InMemoryStreams.
Context {magic : MagicHeader} {kllvm : Deserializer}.

(** X5.  On an in-memory stream that stands before a magic header, six
    bytes of version and eight of size, with a version that passes the
    gate and a size that is not zero and below 2^63, the body decoder is
    given the [size] bytes that follow the framing, or all that are left
    when there are fewer; the cursor ends right behind them, and what
    comes before the cursor or after those bytes plays no part.  From
    2^63 on the length does not fit the signed size [io.BytesIO.read]
    takes, the call raises and [cursor_read] no longer stands for it. *)
Theorem read_from_in_memory_stream
    (pre vb sb tail : list byte) (v : binary_version) (size : N) :
  length vb = 6%nat ->
  length sb = 8%nat ->
  read_version vb = Ok v ->
  version_ltb v (Version 1 2 0) = false ->
  read_pattern_size_unchecked sb = Ok size ->
  size <> 0 ->
  size < 2 ^ 63 ->
  read_pattern_from_file
    (py_file_like {| cur_data := pre ++ magic_header ++ vb ++ sb ++ tail;
                     cur_pos := length pre |})
  = (read (take (N.to_nat size) tail) v,
     py_file_like {| cur_data := pre ++ magic_header ++ vb ++ sb ++ tail;
                     cur_pos := length pre + 19 + Nat.min (N.to_nat size) (length tail) |}).
Proof.
  intros Hvb Hsb Hv Hgate Hsize Hnz _.
  set (data := pre ++ magic_header ++ vb ++ sb ++ tail).
  pose proof magic_header_size as Hmagic.
  assert (H1 : src_read 5 {| cur_data := data; cur_pos := length pre |}
               = (magic_header, {| cur_data := data; cur_pos := length pre + 5 |})).
  { replace (length pre + 5)%nat with (length pre + length magic_header)%nat by lia.
    apply (cursor_read_at data pre magic_header (vb ++ sb ++ tail));
      [reflexivity | reflexivity | rewrite Hmagic; reflexivity]. }
  assert (H2 : src_read 6 {| cur_data := data; cur_pos := length pre + 5 |}
               = (vb, {| cur_data := data; cur_pos := length pre + 11 |})).
  { replace (length pre + 11)%nat with (length pre + 5 + length vb)%nat by lia.
    apply (cursor_read_at data (pre ++ magic_header) vb (sb ++ tail));
      [unfold data; rewrite <- !app_assoc; reflexivity
      | rewrite length_app; lia | rewrite Hvb; reflexivity]. }
  assert (H3 : src_read 8 {| cur_data := data; cur_pos := length pre + 11 |}
               = (sb, {| cur_data := data; cur_pos := length pre + 19 |})).
  { replace (length pre + 19)%nat with (length pre + 11 + length sb)%nat by lia.
    apply (cursor_read_at data (pre ++ magic_header ++ vb) sb tail);
      [unfold data; rewrite <- !app_assoc; reflexivity
      | rewrite !length_app; lia | rewrite Hsb; reflexivity]. }
  assert (H4 : src_read size {| cur_data := data; cur_pos := length pre + 19 |}
               = (take (N.to_nat size) tail,
                  {| cur_data := data;
                     cur_pos := length pre + 19 + Nat.min (N.to_nat size) (length tail) |})).
  { cbn [src_read cursor_source]. unfold cursor_read. cbn [cur_data cur_pos].
    replace (drop (length pre + 19) data) with tail.
    - rewrite length_take. reflexivity.
    - unfold data.
      replace (pre ++ magic_header ++ vb ++ sb ++ tail)
        with ((pre ++ magic_header ++ vb ++ sb) ++ tail)
        by (rewrite <- !app_assoc; reflexivity).
      symmetry. apply drop_app_length'. rewrite !length_app. lia. }
  unfold read_pattern_from_file, hasattr_read. cbn [negb].
  rewrite (reader_gate_passed _ _ _ magic_header vb v H1 (std_equal_refl _) H2 Hv Hgate).
  rewrite (reader_body _ _ _ sb _ v size H3 Hsize Hnz H4). reflexivity.
Qed.

(** X6.  Two framed patterns one behind the other in an in-memory stream
    are read by two calls of [read_from] on the same object: the first
    call hands the first body to the body decoder and leaves the cursor
    where the second frame starts, the second call hands it the second
    body and leaves the cursor behind the second frame.  This holds
    whatever the body decoder makes of a body, a failure included. *)
Theorem read_from_reads_consecutive_patterns
    (pre vb1 sb1 body1 vb2 sb2 body2 rest : list byte) (v1 v2 : binary_version) :
  length vb1 = 6%nat ->
  length sb1 = 8%nat ->
  read_version vb1 = Ok v1 ->
  version_ltb v1 (Version 1 2 0) = false ->
  read_pattern_size_unchecked sb1 = Ok (N.of_nat (length body1)) ->
  body1 <> [] ->
  length vb2 = 6%nat ->
  length sb2 = 8%nat ->
  read_version vb2 = Ok v2 ->
  version_ltb v2 (Version 1 2 0) = false ->
  read_pattern_size_unchecked sb2 = Ok (N.of_nat (length body2)) ->
  body2 <> [] ->
  exists file_after_first : py_object cursor,
    read_pattern_from_file
      (py_file_like
         {| cur_data := pre ++ (magic_header ++ vb1 ++ sb1 ++ body1)
                            ++ (magic_header ++ vb2 ++ sb2 ++ body2) ++ rest;
            cur_pos := length pre |})
      = (read body1 v1, file_after_first)
    /\ read_pattern_from_file file_after_first
      = (read body2 v2,
         py_file_like
           {| cur_data := pre ++ (magic_header ++ vb1 ++ sb1 ++ body1)
                              ++ (magic_header ++ vb2 ++ sb2 ++ body2) ++ rest;
              cur_pos := length pre + length (magic_header ++ vb1 ++ sb1 ++ body1)
                         + length (magic_header ++ vb2 ++ sb2 ++ body2) |}).
Proof.
  intros Hvb1 Hsb1 Hv1 Hgate1 Hsize1 Hbody1 Hvb2 Hsb2 Hv2 Hgate2 Hsize2 Hbody2.
  set (frame1 := magic_header ++ vb1 ++ sb1 ++ body1).
  set (frame2 := magic_header ++ vb2 ++ sb2 ++ body2).
  exists (py_file_like {| cur_data := pre ++ frame1 ++ frame2 ++ rest;
                          cur_pos := length pre + length frame1 |}).
  split.
  - apply (read_framed_stream pre vb1 sb1 body1 (frame2 ++ rest) v1); assumption.
  - replace (pre ++ frame1 ++ frame2 ++ rest) with ((pre ++ frame1) ++ frame2 ++ rest)
      by (rewrite <- !app_assoc; reflexivity).
    replace (length pre + length frame1)%nat with (length (pre ++ frame1))
      by (rewrite length_app; reflexivity).
    apply (read_framed_stream (pre ++ frame1) vb2 sb2 body2 rest v2); assumption.
Qed.

End InMemoryStreams.

(** ** The statements above at concrete streams *)

(** X1 on [truncated_stream]: four reads, the last of them short. *)
Lemma read_from_reads_in_stages_witness :
  read_pattern_from_file (magic := sample_magic) (kllvm := modelled_deserializer)
      (py_file_like (journaled_bytes_io truncated_stream))
  = (Ok (KOREStringPattern "a"),
     py_file_like
       {| inner := {| cur_data := truncated_stream; cur_pos := 23 |};
          journal := [(5, 5%nat); (6, 6%nat); (8, 8%nat); (200, 4%nat)] |}).
Proof.
  assert (H1 : src_read 5 (bytes_io truncated_stream)
               = ([x7f; x4b; x4f; x52; x45],
                  {| cur_data := truncated_stream; cur_pos := 5 |}))
    by reflexivity.
  destruct (read_from_reads_in_stages
              (magic := sample_magic) (kllvm := modelled_deserializer)
              _ _ _ [] H1 (le_n 5))
    as (_ & Hmatched).
  assert (H2 : src_read 6 {| cur_data := truncated_stream; cur_pos := 5 |}
               = (version_bytes (Version 1 2 0),
                  {| cur_data := truncated_stream; cur_pos := 11 |}))
    by reflexivity.
  destruct (Hmatched eq_refl _ _ H2) as (_ & Hversion).
  destruct (Hversion (Version 1 2 0) eq_refl) as (_ & Hgate).
  assert (H3 : src_read 8 {| cur_data := truncated_stream; cur_pos := 11 |}
               = (to_bytes 8 200, {| cur_data := truncated_stream; cur_pos := 19 |}))
    by reflexivity.
  destruct (Hgate eq_refl _ _ H3) as (_ & _ & Hbody).
  assert (H4 : src_read 200 {| cur_data := truncated_stream; cur_pos := 19 |}
               = ([string_pattern_tag; direct_string_prefix; x01; x61],
                  {| cur_data := truncated_stream; cur_pos := 23 |}))
    by reflexivity.
  assert (Hnz : (200 : N) <> 0) by discriminate.
  exact (Hbody 200 eq_refl Hnz _ _ H4).
Defined.

(** X2 on the sample pattern framed as version 1.2.0. *)
Lemma read_from_success_comes_from_a_frame_witness :
  exists (s1 s2 s3 s4 : cursor) (header vb sb body : list byte)
         (v : binary_version) (size : N),
    cursor_read 5 (bytes_io (framed_as (Version 1 2 0) sample_body)) = (header, s1)
    /\ header = take (length header) (magic_header (MagicHeader := sample_magic))
    /\ cursor_read 6 s1 = (vb, s2)
    /\ decode_version vb = Ok v
    /\ version_ltb v (Version 1 2 0) = false
    /\ cursor_read 8 s2 = (sb, s3)
    /\ decode_pattern_size sb = Ok size
    /\ size <> 0
    /\ cursor_read size s3 = (body, s4)
    /\ decode_body body v = Ok sample_pattern
    /\ py_file_like {| cur_data := framed_as (Version 1 2 0) sample_body; cur_pos := 74 |}
       = py_file_like s4.
Proof.
  refine (read_from_success_comes_from_a_frame
            (magic := sample_magic) (kllvm := modelled_deserializer)
            (bytes_io (framed_as (Version 1 2 0) sample_body)) sample_pattern
            (py_file_like {| cur_data := framed_as (Version 1 2 0) sample_body;
                             cur_pos := 74 |}) _ _).
  - vm_compute. lia.
  - vm_compute. reflexivity.
Defined.

(** X3 on a source that holds the first two bytes of the magic header and
    nothing else: the two bytes are a prefix of the constant, and the
    reader does not stop at the header check. *)
Lemma header_check_passes_prefixes_witness :
  [x7f; x4b] <> take (length [x7f; x4b]) (magic_header (MagicHeader := sample_magic))
  <-> read_pattern_from_file (magic := sample_magic) (kllvm := modelled_deserializer)
        (py_file_like (journaled_bytes_io [x7f; x4b]))
      = (Err (invalid_argument bad_header_message),
         py_file_like {| inner := {| cur_data := [x7f; x4b]; cur_pos := 2 |};
                         journal := [] ++ [(5, length [x7f; x4b])] |}).
Proof.
  apply (header_check_passes_prefixes
           (magic := sample_magic) (kllvm := modelled_deserializer)
           (bytes_io [x7f; x4b]) {| cur_data := [x7f; x4b]; cur_pos := 2 |}
           [x7f; x4b] []).
  - reflexivity.
  - simpl. lia.
Defined.

(** X4 on an empty in-memory stream: the failure is the version
    decoder's on no byte, not the bad-header failure. *)
Lemma read_from_at_end_of_file_witness :
  read_pattern_from_file (magic := sample_magic) (kllvm := modelled_deserializer)
      (py_file_like (bytes_io []))
  = (Err (kore_error FormatError), py_file_like (bytes_io [])).
Proof.
  apply (read_from_at_end_of_file
           (magic := sample_magic) (kllvm := modelled_deserializer) (bytes_io [])).
  intros n. cbn [src_read cursor_source]. unfold cursor_read, bytes_io.
  cbn [cur_data cur_pos drop]. rewrite take_nil. reflexivity.
Defined.

(** X5 behind one byte that takes no part, with a size field of 4 and six
    bytes after the framing: four are decoded, two are left. *)
Lemma read_from_in_memory_stream_witness :
  read_pattern_from_file (magic := sample_magic) (kllvm := modelled_deserializer)
    (py_file_like
       {| cur_data := [xff] ++ magic_header (MagicHeader := sample_magic)
                      ++ version_bytes (Version 1 2 0) ++ to_bytes 8 4
                      ++ [string_pattern_tag; direct_string_prefix; x01; x61; xff; xff];
          cur_pos := length [xff] |})
  = (decode_body
       (take (N.to_nat 4) [string_pattern_tag; direct_string_prefix; x01; x61; xff; xff])
       (Version 1 2 0),
     py_file_like
       {| cur_data := [xff] ++ magic_header (MagicHeader := sample_magic)
                      ++ version_bytes (Version 1 2 0) ++ to_bytes 8 4
                      ++ [string_pattern_tag; direct_string_prefix; x01; x61; xff; xff];
          cur_pos := length [xff] + 19
                     + Nat.min (N.to_nat 4)
                         (length [string_pattern_tag; direct_string_prefix;
                                  x01; x61; xff; xff]) |}).
Proof.
  apply (read_from_in_memory_stream
           (magic := sample_magic) (kllvm := modelled_deserializer)
           [xff] (version_bytes (Version 1 2 0)) (to_bytes 8 4)
           [string_pattern_tag; direct_string_prefix; x01; x61; xff; xff]
           (Version 1 2 0) 4);
    try reflexivity.
  discriminate.
Defined.

(** X6 on [two_patterns]: the sample pattern, then the string pattern. *)
Lemma read_from_reads_consecutive_patterns_witness :
  exists file_after_first : py_object cursor,
    read_pattern_from_file (magic := sample_magic) (kllvm := modelled_deserializer)
      (py_file_like (bytes_io two_patterns))
      = (Ok sample_pattern, file_after_first)
    /\ read_pattern_from_file (magic := sample_magic) (kllvm := modelled_deserializer)
         file_after_first
      = (Ok (KOREStringPattern "SortInt"),
         py_file_like {| cur_data := two_patterns; cur_pos := length two_patterns |}).
Proof.
  refine (read_from_reads_consecutive_patterns
            (magic := sample_magic) (kllvm := modelled_deserializer)
            [] (version_bytes (Version 1 2 0))
            (to_bytes 8 (N.of_nat (length sample_body))) sample_body
            (version_bytes (Version 1 2 0))
            (to_bytes 8 10)
            [string_pattern_tag; direct_string_prefix; x07;
             x53; x6f; x72; x74; x49; x6e; x74]
            [] (Version 1 2 0) (Version 1 2 0)
            _ _ _ _ _ _ _ _ _ _ _ _);
    vm_compute; first [reflexivity | discriminate].
Defined.
